(** * Copycat: bonds and the correspondence codelets

    A shallow embedding of [copycat/bond.py] and of
    [copycat/coderack/codelets/correspondence.py].

    Every method is embedded on its own, statement by statement.  Python
    values that the methods only pass around (slipnet nodes, descriptors,
    probabilities) stay abstract or are records of the attributes that are
    read.  A method either returns a value or raises; a name that is bound
    nowhere (no local, no module global, no builtin) raises [NameError] at
    the point where it is evaluated. *)

From Stdlib Require Import ZArith List String Bool Lia.
Import ListNotations.
Local Open Scope Z_scope.

(** ** Python outcomes *)

Inductive exn : Type :=
| NameError (name : string)
| UnboundLocalError (name : string)
| IndexError
| SyntaxError (line : Z).

Inductive outcome (A : Type) : Type :=
| Returns (a : A)
| Raises (e : exn).
Arguments Returns {A} a.
Arguments Raises {A} e.

(** Inside a method body a statement falls through to the next one
    ([Next]), leaves the method with [return] ([Return]), or raises. *)
Inductive flow (R A : Type) : Type :=
| Next (a : A)
| Return (r : R)
| Raise (e : exn).
Arguments Next {R A} a.
Arguments Return {R A} r.
Arguments Raise {R A} e.

Definition flow_bind {R A B} (c : flow R A) (k : A -> flow R B) : flow R B :=
  match c with
  | Next a => k a
  | Return r => Return r
  | Raise e => Raise e
  end.

(** The value of a call: the [return]ed value, or the value the body ends
    with when it runs off its last statement. *)
Definition call {R} (body : flow R R) : outcome R :=
  match body with
  | Next r => Returns r
  | Return r => Returns r
  | Raise e => Raises e
  end.

Declare Scope flow_scope.
Delimit Scope flow_scope with flow.
Notation "x <- c ;; k" := (flow_bind c (fun x => k))
  (at level 61, c at next level, right associativity) : flow_scope.
Notation "c ;; k" := (flow_bind c (fun _ => k))
  (at level 61, right associativity) : flow_scope.

(** ** The slipnet and the workspace objects, as far as they are read *)

(** A slipnet node; the network has one node per name, so [==] on nodes is
    equality of names. *)
Record Node : Type := { name : string }.

Definition Node_eq (a b : Node) : bool := String.eqb (name a) (name b).

(** What an attribute or a list element may hold where the sources compare
    it with a string literal in one place and with a node in another: a
    [str], a slipnet node or [None].  [==] across kinds is false. *)
Inductive Value : Type :=
| VNone
| VStr (s : string)
| VNode (n : Node).

Definition Value_eq (a b : Value) : bool :=
  match a, b with
  | VNone, VNone => true
  | VStr x, VStr y => String.eqb x y
  | VNode x, VNode y => Node_eq x y
  | _, _ => false
  end.

(** A string of the puzzle: its letters and [string.length]. *)
Record WString : Type := { text : string; length : Z }.

(** [type(obj)]: workspace objects are letters or groups. *)
Inductive ObjType : Type := LetterType | GroupType.

Definition ObjType_eq (a b : ObjType) : bool :=
  match a, b with
  | LetterType, LetterType | GroupType, GroupType => true
  | _, _ => false
  end.

Module WObject.
(** [oid] is the identity of the Python object: [==] on workspace objects
    is identity. *)
Record t : Type := {
  oid : Z;
  type : ObjType;
  string : WString;
  string_number : Z;
  left_string_position : Z;
  right_string_position : Z
}.

Definition eq (a b : t) : bool := Z.eqb (oid a) (oid b).

Definition set_string_number (o : t) (n : Z) : t :=
  {| oid := oid o; type := type o; string := string o;
     string_number := n;
     left_string_position := left_string_position o;
     right_string_position := right_string_position o |}.
End WObject.

(** A group, with the strength that [Bond.happiness] is after. *)
Record WGroup : Type := { as_object : WObject.t; total_strength : Z }.

(** A concept mapping: the attributes the sources read. *)
Record Mapping : Type := {
description_type1 : Value;
description_type2 : Value;
descriptor1 : Value;
descriptor2 : Value;
label : Value;
relevant : bool
}.

Record Correspondence : Type := {
correspondence_id : Z;
object1 : WObject.t;
object2 : WObject.t;
concept_mappings : list Mapping;
letter_span : Z
}.

(** Modelled from the spec: the base class [Structure] is not part of the
  sources; these are the attributes of section 3 ("a proposal level,
  internal strength, external strength") and the [group] attribute that
  [Bond.happiness] and the builder codelet read. *)
Record Structure : Type := {
proposal_level : Z;
internal_strength : Z;
external_strength : Z;
group : option WGroup
}.

Definition direction_eq (a b : option string) : bool :=
match a, b with
| None, None => true
| Some x, Some y => String.eqb x y
| _, _ => false
end.

Definition direction_value (d : option string) : Value :=
match d with
| None => VNone
| Some s => VStr s
end.

(** ** [class Bond] *)

Module Bond.

Record t : Type := {
  base : Structure;
  from_object : WObject.t;
  to_object : WObject.t;
  structure_category : string;
  bond_category : Node;
  direction_category : option string;
  string : WString;
  left_string_position : Z;
  right_string_position : Z;
  bond_facet : Node;
  from_object_descriptor : Node;
  to_object_descriptor : Node;
  left_object : WObject.t;
  right_object : WObject.t
}.

(** [Bond.__init__], lines 20-46; [super_init] is what
    [Structure.__init__] leaves in the base attributes. *)
Definition init (super_init : Structure)
    (from_object to_object : WObject.t) (bond_category bond_facet : Node)
    (from_object_descriptor to_object_descriptor : Node) : t :=
  let direction_category :=
    if negb (String.eqb (name bond_category) "sameness") then
      if WObject.left_string_position from_object
         <? WObject.left_string_position to_object
      then Some "left"%string
      else Some "right"%string
    else None in
  let left_string_position :=
    Z.min (WObject.left_string_position from_object)
          (WObject.left_string_position to_object) in
  let right_string_position :=
    Z.min (WObject.right_string_position from_object)
          (WObject.right_string_position to_object) in
  let ends :=
    if WObject.left_string_position from_object
       <? WObject.left_string_position to_object
    then (from_object, to_object)
    else (to_object, from_object) in
  {| base := super_init;
     from_object := from_object;
     to_object := to_object;
     structure_category := "bond";
     bond_category := bond_category;
     direction_category := direction_category;
     string := WObject.string from_object;
     left_string_position := left_string_position;
     right_string_position := right_string_position;
     bond_facet := bond_facet;
     from_object_descriptor := from_object_descriptor;
     to_object_descriptor := to_object_descriptor;
     left_object := fst ends;
     right_object := snd ends |}.

(** [Bond.__eq__], lines 48-52. *)
Definition eq (self other : t) : bool :=
  WObject.eq (from_object self) (from_object other) &&
  WObject.eq (to_object self) (to_object other) &&
  Node_eq (bond_category self) (bond_category other) &&
  direction_eq (direction_category self) (direction_category other).

(** Lines 54-55. *)
Definition is_proposed (self : t) : bool :=
  proposal_level (base self) <? 3.

(** Lines 60-61. *)
Definition is_leftmost_in_string (self : t) : bool :=
  left_string_position self =? 0.

(** Lines 63-64. *)
Definition is_rightmost_in_string (self : t) : bool :=
  right_string_position self =? 1 - length (string self).

(** Lines 213-217. *)
Definition importance (self : t) : Z :=
  if String.eqb (name (bond_category self)) "sameness" then 100 else 50.

(** [Bond.happiness], lines 219-224.  The test reads the attribute
    [self.group]; the branch taken when it is set reads the bare name
    [group], which is no parameter or local of the method, no global of
    the module (it imports [Structure] and defines [Bond]) and no
    builtin. *)
Definition happiness (self : t) : outcome Z :=
  match group (base self) with
  | Some _ => Raises (NameError "group")
  | None => Returns 0
  end.

(** [Bond.unhappiness], lines 226-227. *)
Definition unhappiness (self : t) : outcome Z :=
  match happiness self with
  | Returns h => Returns (100 - h)
  | Raises e => Raises e
  end.

(** [Bond.update_internal_strength], lines 193-208.  The head of the
    second conditional, line 199, is
    [if self.bond_facet.name = 'letter_category':], an assignment where
    the grammar asks for an expression.  Python refuses the statement
    when it compiles the method, so no call reaches the product of lines
    206-208 and no bond gets an internal strength from it. *)
Definition update_internal_strength (self : t) : outcome t :=
  Raises (SyntaxError 199).

(** [Bond.are_members], lines 66-68. *)
Definition are_members (self : t) (object1 object2 : WObject.t) : bool :=
  (WObject.eq (from_object self) object1
   || WObject.eq (to_object self) object1) &&
  (WObject.eq (from_object self) object2
   || WObject.eq (to_object self) object2).

(** [Bond.is_in_group], lines 70-72, on [objects = group.objects()]. *)
Definition is_in_group (self : t) (objects : list WObject.t) : bool :=
  existsb (WObject.eq (from_object self)) objects &&
  existsb (WObject.eq (to_object self)) objects.

(** *** Neighbours

    [all_left_neighbors] and [all_right_neighbors] are the methods of the
    objects; [left_right_bonds s i j] is [s.left_right_bonds[i][j]]: [None]
    when an index is out of range, otherwise the entry, which is a bond or
    a false value. *)
Section Neighbors.

Variable all_left_neighbors : WObject.t -> list WObject.t.
Variable all_right_neighbors : WObject.t -> list WObject.t.
Variable left_right_bonds : WString -> Z -> Z -> option (option t).

(** The loops of lines 90-93 and 105-108: the true entries, in order. *)
Fixpoint possible_neighbors
    (entry : WObject.t -> option (option t))
    (objects : list WObject.t) (neighbors : list t) : outcome (list t) :=
  match objects with
  | [] => Returns neighbors
  | obj :: rest =>
    match entry obj with
    | None => Raises IndexError
    | Some None => possible_neighbors entry rest neighbors
    | Some (Some possible_neighbor) =>
      possible_neighbors entry rest (neighbors ++ [possible_neighbor])
    end
  end.

(** The first [choose_left_neighbor] of the class body, lines 82-95.  The
    module imports no [util]: line 95 raises once the loop is through. *)
Definition choose_left_neighbor_first (self : t) : outcome (option t) :=
  if is_leftmost_in_string self then Returns None else
  match possible_neighbors
          (fun obj =>
             left_right_bonds (string self)
               (WObject.string_number obj)
               (WObject.string_number (left_object self)))
          (all_left_neighbors (left_object self)) [] with
  | Raises e => Raises e
  | Returns left_neighbors => Raises (NameError "util")
  end.

(** [Bond.choose_right_neighbor], lines 97-110. *)
Definition choose_right_neighbor (self : t) : outcome (option t) :=
  if is_rightmost_in_string self then Returns None else
  match possible_neighbors
          (fun obj =>
             left_right_bonds (string self)
               (WObject.string_number (right_object self))
               (WObject.string_number obj))
          (all_right_neighbors (right_object self)) [] with
  | Raises e => Raises e
  | Returns right_neighbors => Raises (NameError "util")
  end.

End Neighbors.

(** [Bond.choose_left_neighbor]: the class body binds the name a second
    time, lines 232-238, and the second binding is the method.  Its body is
    the test alone. *)
Definition choose_left_neighbor (self : t) : outcome (option t) :=
  if is_leftmost_in_string self then Returns None else Returns None.

(** *** The references a bond follows through the workspace

    [obj.correspondence], [obj.left_bond], [obj.right_bond] and the methods
    of the classes that are not part of the sources. *)
Section Store.

Variable correspondence : WObject.t -> option Correspondence.
Variable left_bond right_bond : WObject.t -> option t.
Variable object_is_leftmost_in_string : WObject.t -> bool.
Variable object_is_rightmost_in_string : WObject.t -> bool.
Variable other_object : Correspondence -> WObject.t -> WObject.t.
Variable Mapping_init :
  Value -> Value -> Value -> Value -> Value -> Value -> Mapping.
Variable is_incompatible_concept_mapping : Mapping -> Mapping -> bool.
Variable plato_string_position_category : Node.
Variable plato_direction_category : Node.

(** The loop of lines 139-141 (and 167-169): the local
    [string_position_category_concept_mapping] ends up bound to the last
    mapping of that description type, and keeps its binding otherwise. *)
Definition bind_string_position_mapping
    (bound : option Mapping) (cms : list Mapping) : option Mapping :=
  fold_left
    (fun local cm =>
       if Value_eq (description_type1 cm)
                   (VNode plato_string_position_category)
       then Some cm else local)
    cms bound.

(** The locals that one end of the bond hands to the next. *)
Definition locals : Type := (option Mapping * list Correspondence)%type.

(** One end of the bond: lines 136-161 for [left_object], lines 164-189 for
    [right_object].  Line 142 (and 170) reads
    [string_position_cateogry_conept_mapping], a spelling that is bound
    nowhere. *)
Definition edge (self : t) (end_object : WObject.t) (l : locals)
  : flow (option (list Correspondence)) locals :=
  let '(bound, incompatible_correspondences) := l in
  match correspondence end_object with
  | None => Return None
  | Some c =>
    let string_position_category_concept_mapping :=
      bind_string_position_mapping bound (concept_mappings c) in
    (misspelt <- Raise (NameError "string_position_cateogry_conept_mapping") ;;
     if negb misspelt then Return None else
     let other := other_object c end_object in
     other_bond <-
       (if object_is_leftmost_in_string other then Next (right_bond other)
        else if object_is_rightmost_in_string other
             then Next (left_bond other)
             else Return None) ;;
     match other_bond with
     | None => Return None
     | Some ob =>
       match direction_category ob with
       | None => Return None
       | Some _ =>
         let bond_concept_mapping :=
           Mapping_init (VNode plato_direction_category)
                        (VNode plato_direction_category)
                        (direction_value (direction_category self))
                        (direction_value (direction_category ob))
                        VNone VNone in
         cm <- match string_position_category_concept_mapping with
               | Some cm => Next cm
               | None =>
                 Raise (UnboundLocalError
                          "string_position_category_concept_mapping")
               end ;;
         if is_incompatible_concept_mapping bond_concept_mapping cm
         then Next (string_position_category_concept_mapping,
                    incompatible_correspondences ++ [c])
         else Next (string_position_category_concept_mapping,
                    incompatible_correspondences)
       end
     end)%flow
  end.

(** [Bond.get_incompatible_correspondences], lines 121-191.  A bare
    [return] hands back [None]; the last line hands back the list. *)
Definition get_incompatible_correspondences (self : t)
  : outcome (option (list Correspondence)) :=
  call
    (l1 <- (if is_leftmost_in_string self
            then edge self (left_object self) (None, [])
            else Next (None, [])) ;;
     l2 <- (if is_rightmost_in_string self
            then edge self (right_object self) l1
            else Next l1) ;;
     Return (Some (snd l2)))%flow.

End Store.

End Bond.


(** ** The codelets of [correspondence.py] *)

Record Description : Type := { descriptor : Value }.

Module Slippage.
Record t : Type := { descriptor1 : Value; descriptor2 : Value }.
End Slippage.

Record Rule : Type := { rule_id : Z }.

(** What a fight is fought against, and what is broken or built. *)
Inductive StructureRef : Type :=
| no_structure
| a_correspondence (c : Correspondence)
| a_bond (b : Bond.t)
| a_group (g : WGroup)
| a_rule (r : Rule).

(** The calls by which a codelet changes the workspace, the slipnet or the
    bookkeeping of proposals, named after the methods. *)
Inductive Event : Type :=
| propose_correspondence
    (o1 o2 : WObject.t) (mappings : list Mapping) (flip : bool)
| delete_proposed_correspondence (c : Correspondence)
| buffer_add (label : Value) (amount : Z)
| add_concept_mappings (existing : Correspondence) (mappings : list Mapping)
| fight_it_out
    (c : Correspondence) (weight : Z)
    (against : list StructureRef) (against_weight : Z) (won : bool)
| break_correspondence (c : Correspondence)
| break_bond (b : Bond.t)
| break_group (g : WGroup)
| break_rule (r : Rule)
| build_bond (b : Bond.t)
| build_group (o : WObject.t)
| build_correspondence (c : Correspondence).

(** A draw from the random source that all codelets share. *)
Definition Draw : Type := Z.

(** The state a run threads: how many draws were taken from the random
    source, and the calls made so far, oldest first. *)
Record World : Type := { drawn : nat; log : list Event }.

(** The classes and modules the codelets call that are not part of the
    sources ([Codelet], the workspace, the strings, the objects, [Mapping],
    [Correspondence], [toolbox], the slipnet), one field per method or
    attribute, under the receiver and the spelling of the call site.
    Queries are answered from the workspace as it is when the codelet
    starts; random choices take the draw they consume. *)
Record Collaborators : Type := {
  Prob : Type;
  Proposal : Type;
  random_source : nat -> Draw;
  (* strings and workspace *)
  initial_string : WString;
  target_string : WString;
  choose_object : WString -> string -> Draw -> WObject.t;
  self_target_string_objects : list WObject.t;
  self_objects : list WObject.t;
  is_group_present : WObject.t -> option WGroup;
  workspace_get_concept_mappings :
    WObject.t -> WObject.t -> list Description -> list Description ->
    list Mapping;
  self_concept_mappings :
    WObject.t -> WObject.t -> list Description -> list Description ->
    list Mapping;
  workspace_temperature_adjusted_probability : Prob -> Prob;
  self_temperature_adjusted_probability : Prob -> Prob;
  workspace_propose_correspondence :
    WObject.t -> WObject.t -> list Mapping -> bool -> Proposal;
  self_propose_correspondence :
    WObject.t -> WObject.t -> list Mapping -> bool -> Proposal;
  self_slippages : list Slippage.t;
  self_correspondence_present : Correspondence -> option Correspondence;
  self_rule : Rule;
  self_activation : Z;
  self_fight_it_out :
    Correspondence -> Z -> list StructureRef -> Z -> Draw -> bool;
  (* objects *)
  spans_whole_string : WObject.t -> bool;
  is_string_spanning_group : WObject.t -> bool;
  string_spanning_group : WObject.t -> bool;
  relevant_descriptions : WObject.t -> list Description;
  flipped_version : WObject.t -> WObject.t;
  leftmost_in_string : WObject.t -> bool;
  rightmost_in_string : WObject.t -> bool;
  choose_relevant_distinguishing_description_by_conceptual_depth :
    WObject.t -> Draw -> option Description;
  inter_string_salience : WObject.t -> Z;
  object_bonds : WObject.t -> list Bond.t;
  group_bonds : WGroup -> list Bond.t;
  (* mappings and correspondences *)
  slippability : Mapping -> Z;
  slippablity : Mapping -> Z;
  is_distinguishing : Mapping -> bool;
  distinguishing : Mapping -> Value;
  mapping_present : Correspondence -> Mapping -> bool;
  incompatible_corresondences : Correspondence -> list Correspondence;
  incompatible_bond : Correspondence -> option Bond.t;
  incompatible_rule : Correspondence -> bool;
  (* toolbox and slipnet *)
  over_100 : Z -> Prob;
  flip_coin : Prob -> Draw -> bool;
  select_list_position : list Z -> Draw -> nat;
  plato_opposite_is_active : bool;
  nodes_are_all_opposite_concept_mappings : list Mapping -> bool;
  self_all_opposite_concept_mappings : list Mapping -> bool;
  nodes_plato_direction_category : Node
}.

(** *** Running a method body against the world *)

Definition M (R A : Type) : Type := World -> flow R A * World.

Definition ret {R A} (a : A) : M R A := fun w => (Next a, w).

Definition bind {R A B} (c : M R A) (k : A -> M R B) : M R B :=
  fun w =>
    match c w with
    | (Next a, w') => k a w'
    | (Return r, w') => (Return r, w')
    | (Raise e, w') => (Raise e, w')
    end.

(** [return r] *)
Definition leave {R A} (r : R) : M R A := fun w => (Return r, w).

Definition raise {R A} (e : exn) : M R A := fun w => (Raise e, w).

Definition perform {R} (e : Event) : M R unit :=
  fun w => (Next tt, {| drawn := drawn w; log := log w ++ [e] |}).

Declare Scope codelet_scope.
Delimit Scope codelet_scope with codelet.
Notation "x <- c ;; k" := (bind c (fun x => k))
  (at level 61, c at next level, right associativity) : codelet_scope.
Notation "c ;; k" := (bind c (fun _ => k))
  (at level 61, right associativity) : codelet_scope.

(** [for x in xs: body], where the body may [return]. *)
Fixpoint for_each {R A} (xs : list A) (body : A -> M R unit) : M R unit :=
  match xs with
  | [] => ret tt
  | x :: rest => (body x ;; for_each rest body)%codelet
  end.

(** The outcome of a call and the world it leaves. *)
Definition run_codelet {R} (body : M R R) (w : World) : outcome R * World :=
  (call (fst (body w)), snd (body w)).

Definition is_empty {A} (xs : list A) : bool :=
  match xs with
  | [] => true
  | _ :: _ => false
  end.

Definition contains (o : WObject.t) (objects : list WObject.t) : bool :=
  existsb (WObject.eq o) objects.

Section Codelets.

Variable E : Collaborators.

Local Open Scope codelet_scope.

(** One draw from the shared random source. *)
Definition draw {R} : M R Draw :=
  fun w => (Next (random_source E (drawn w)),
            {| drawn := S (drawn w); log := log w |}).

(** [self.fight_it_out(...)]: one weighted coin flip (spec, section 4.3). *)
Definition fight {R} (c : Correspondence) (weight : Z)
    (against : list StructureRef) (against_weight : Z) : M R bool :=
  d <- draw ;;
  let won := self_fight_it_out E c weight against against_weight d in
  perform (fight_it_out c weight against against_weight won) ;;
  ret won.

(** [if not self.fight_it_out(...): return] *)
Definition must_win (c : Correspondence) (weight : Z)
    (against : list StructureRef) (against_weight : Z) : M unit unit :=
  won <- fight c weight against against_weight ;;
  if negb won then leave tt else ret tt.

(** Reading a local that an earlier branch may have left unbound. *)
Definition local {R A} (name : string) (binding : option A) : M R A :=
  match binding with
  | Some v => ret v
  | None => raise (UnboundLocalError name)
  end.

(** *** The scouts *)

(** The loop "decide whether or not to continue based on slippability":
    every mapping flips its coin, one success is enough. *)
Fixpoint slippability_gate {R}
    (slip : Mapping -> Z) (adjust : Prob E -> Prob E)
    (mappings : list Mapping) (possible : bool) : M R bool :=
  match mappings with
  | [] => ret possible
  | mapping :: rest =>
    d <- draw ;;
    let probability := adjust (over_100 E (slip mapping)) in
    slippability_gate slip adjust rest
      (if flip_coin E probability d then true else possible)
  end.

(** The mappings whose description type is neither of the two string
    literals of lines 67-68 (and 261-262). *)
Definition possible_opposite (mappings : list Mapping) : list Mapping :=
  filter
    (fun mapping =>
       negb (Value_eq (description_type1 mapping)
                      (VStr "plato_string_position_category")) &&
       negb (Value_eq (description_type1 mapping)
                      (VStr "plato_bond_facet")))
    mappings.

(** [CorrespondenceBottomUpScout.run], lines 33-35: the two objects. *)
Definition bottom_up_choose {R} : M R (WObject.t * WObject.t) :=
  d1 <- draw ;;
  let object1 :=
    choose_object E (initial_string E) "inter_string_salience" d1 in
  d2 <- draw ;;
  let object2 :=
    choose_object E (target_string E) "inter_string_salience" d2 in
  ret (object1, object2).

(** [CorrespondenceBottomUpScout.run], lines 37-84. *)
Definition bottom_up_continue (object1 object2 : WObject.t)
  : M (option (Proposal E)) (option (Proposal E)) :=
  if negb (Bool.eqb (spans_whole_string E object1)
                    (spans_whole_string E object2))
  then leave None else
  let mappings :=
    workspace_get_concept_mappings E object1 object2
      (relevant_descriptions E object1) (relevant_descriptions E object2) in
  if is_empty mappings then leave None else
  possible <-
    slippability_gate (slippability E)
      (workspace_temperature_adjusted_probability E) mappings false ;;
  if negb possible then leave None else
  let distinguished_mappings := filter (is_distinguishing E) mappings in
  if is_empty distinguished_mappings then leave None else
  let possible_opposite_mappings :=
    possible_opposite distinguished_mappings in
  let opposite_descriptions := map description_type1 mappings in
  let flip :=
    is_string_spanning_group E object1 &&
    is_string_spanning_group E object2 &&
    negb (plato_opposite_is_active E) &&
    nodes_are_all_opposite_concept_mappings E possible_opposite_mappings &&
    existsb (Value_eq (VNode (nodes_plato_direction_category E)))
            opposite_descriptions in
  let object2' :=
    if flip
    then WObject.set_string_number (flipped_version E object2)
                                   (WObject.string_number object2)
    else object2 in
  let mappings' :=
    if flip
    then self_concept_mappings E object1 object2'
           (relevant_descriptions E object1)
           (relevant_descriptions E object2')
    else mappings in
  perform (propose_correspondence object1 object2' mappings' true) ;;
  leave (Some (workspace_propose_correspondence E
                 object1 object2' mappings' true)).

Definition CorrespondenceBottomUpScout_run
  : M (option (Proposal E)) (option (Proposal E)) :=
  chosen <- bottom_up_choose ;;
  bottom_up_continue (fst chosen) (snd chosen).

(** [CorrespondenceImportantObjectScout.run], lines 204-229: the two
    objects, when the codelet gets as far as choosing both. *)
Definition important_object_choose {R : Type}
  : M (option R) (WObject.t * WObject.t) :=
  d1 <- draw ;;
  let object1 :=
    choose_object E (initial_string E) "relative_importance" d1 in
  d2 <- draw ;;
  match choose_relevant_distinguishing_description_by_conceptual_depth
          E object1 d2 with
  | None => leave None
  | Some object1_description =>
    let object1_descriptor := descriptor object1_description in
    let object2_descriptor :=
      fold_left
        (fun found slippage =>
           if Value_eq (Slippage.descriptor1 slippage) object1_descriptor
           then Slippage.descriptor2 slippage else found)
        (self_slippages E) object1_descriptor in
    let object2_candidates :=
      flat_map
        (fun object =>
           flat_map
             (fun description =>
                if Value_eq (descriptor description) object2_descriptor
                then [object] else [])
             (relevant_descriptions E object))
        (self_target_string_objects E) in
    if is_empty object2_candidates then leave None else
    let values := map (inter_string_salience E) object2_candidates in
    d3 <- draw ;;
    let index := select_list_position E values d3 in
    match nth_error object2_candidates index with
    | None => raise IndexError
    | Some object2 => ret (object1, object2)
    end
  end.

(** [CorrespondenceImportantObjectScout.run], lines 231-278.  Line 253
    binds [distinguished_mappings]; line 259 iterates over
    [distinguishing_mappings], which is bound nowhere. *)
Definition important_object_continue (object1 object2 : WObject.t)
  : M (option (Proposal E)) (option (Proposal E)) :=
  if negb (Bool.eqb (spans_whole_string E object1)
                    (spans_whole_string E object2))
  then leave None else
  let mappings :=
    self_concept_mappings E object1 object2
      (relevant_descriptions E object1) (relevant_descriptions E object2) in
  if is_empty mappings then leave None else
  possible <-
    slippability_gate (slippablity E)
      (self_temperature_adjusted_probability E) mappings false ;;
  if negb possible then leave None else
  let distinguished_mappings := map (distinguishing E) mappings in
  if is_empty distinguished_mappings then leave None else
  distinguishing_mappings <- raise (NameError "distinguishing_mappings") ;;
  let possible_opposite_mappings :=
    possible_opposite distinguishing_mappings in
  let opposite_descriptions := map description_type1 mappings in
  let flip :=
    string_spanning_group E object1 &&
    string_spanning_group E object2 &&
    self_all_opposite_concept_mappings E possible_opposite_mappings &&
    existsb (Value_eq (VStr "plato_direction_category"))
            opposite_descriptions in
  let object2' :=
    if flip
    then WObject.set_string_number (flipped_version E object2)
                                   (WObject.string_number object2)
    else object2 in
  let mappings' :=
    if flip
    then self_concept_mappings E object1 object2'
           (relevant_descriptions E object1)
           (relevant_descriptions E object2')
    else mappings in
  perform (propose_correspondence object1 object2' mappings' true) ;;
  leave (Some (self_propose_correspondence E
                 object1 object2' mappings' true)).

Definition CorrespondenceImportantObjectScout_run
  : M (option (Proposal E)) (option (Proposal E)) :=
  chosen <- important_object_choose ;;
  important_object_continue (fst chosen) (snd chosen).

(** *** The builder *)

(** Lines 103-106: do the objects still exist?  [or] and [and] evaluate
    their right operand only when the left one does not decide; the name
    [flip_object2] is bound nowhere in the method (the second argument is
    bound to [flip_obj2], line 93) nor in the module. *)
Definition objects_gone {R} (object1 object2 : WObject.t)
    (existing_object2_group : option WGroup) : M R bool :=
  let objects := self_objects E in
  if negb (contains object1 objects) then ret true
  else if negb (contains object2 objects) then
    flip_object2 <- raise (NameError "flip_object2") ;;
    ret (negb (flip_object2 &&
               match existing_object2_group with
               | Some _ => true
               | None => false
               end))
  else ret false.

(** Lines 108-120: the correspondence is there already. *)
Definition merge_into_existing (correspondence existing_correspondence
                                : Correspondence) : M unit unit :=
  perform (delete_proposed_correspondence correspondence) ;;
  let labels := map label (concept_mappings correspondence) in
  for_each labels
    (fun label => perform (buffer_add label (self_activation E))) ;;
  let mappings_to_add :=
    filter (fun mapping => negb (mapping_present E correspondence mapping))
           (concept_mappings correspondence) in
  perform (add_concept_mappings existing_correspondence mappings_to_add) ;;
  leave tt.

(** Lines 139-152: the fight against an incompatible bond at the edge of
    the strings and against its group.  The result is the binding of the
    locals [incompatible_bond] and [incompatible_group], [None] where the
    assignment was not reached. *)
Definition fight_edge_bond (correspondence : Correspondence)
  : M unit (option (option Bond.t) * option (option WGroup)) :=
  let object1 := object1 correspondence in
  let object2 := object2 correspondence in
  if (leftmost_in_string E object1 || rightmost_in_string E object1) &&
     (leftmost_in_string E object2 || rightmost_in_string E object2)
  then
    match incompatible_bond E correspondence with
    | Some b =>
      must_win correspondence 3 [a_bond b] 2 ;;
      match group (Bond.base b) with
      | Some g =>
        must_win correspondence 1 [a_group g] 1 ;;
        ret (Some (Some b), Some (Some g))
      | None => ret (Some (Some b), Some None)
      end
    | None => ret (Some None, None)
    end
  else ret (None, None).

(** Lines 156-189, after [flip_object2] has been evaluated. *)
Definition finish_build (correspondence : Correspondence)
    (existing_object2_group : option WGroup)
    (incompatible_correspondences : list Correspondence)
    (bond_local : option (option Bond.t))
    (group_local : option (option WGroup))
    (flip_object2 : bool) : M unit unit :=
  (if flip_object2 then
     must_win correspondence 1
       [match existing_object2_group with
        | Some g => a_group g
        | None => no_structure
        end] 1
   else ret tt) ;;
  let incompatible_rule := incompatible_rule E correspondence in
  (if incompatible_rule
   then must_win correspondence 1 [a_rule (self_rule E)] 1
   else ret tt) ;;
  for_each incompatible_correspondences
    (fun incompatible => perform (break_correspondence incompatible)) ;;
  incompatible_bond <- local "incompatible_bond" bond_local ;;
  match incompatible_bond with
  | Some b => perform (break_bond b)
  | None => ret tt
  end ;;
  incompatible_group <- local "incompatible_group" group_local ;;
  match incompatible_group with
  | Some g => perform (break_group g)
  | None => ret tt
  end ;;
  match existing_object2_group with
  | Some g =>
    perform (break_group g) ;;
    for_each (group_bonds E g) (fun b => perform (break_bond b)) ;;
    for_each (object_bonds E (object2 correspondence))
      (fun b => perform (build_bond b)) ;;
    perform (build_group (object2 correspondence))
  | None => ret tt
  end ;;
  (if incompatible_rule then perform (break_rule (self_rule E))
   else ret tt) ;;
  perform (build_correspondence correspondence).

(** [CorrespondenceBuilder.run], lines 91-189, on the two arguments of the
    codelet. *)
Definition CorrespondenceBuilder_run
    (correspondence : Correspondence) (flip_obj2 : bool) : M unit unit :=
  let object1 := object1 correspondence in
  let object2 := object2 correspondence in
  let flipped := flipped_version E object2 in
  let existing_object2_group := is_group_present E flipped in
  gone <- objects_gone object1 object2 existing_object2_group ;;
  if gone then leave tt else
  match self_correspondence_present E correspondence with
  | Some existing_correspondence =>
    merge_into_existing correspondence existing_correspondence
  | None =>
    for_each (concept_mappings correspondence)
      (fun mapping => if negb (relevant mapping) then leave tt else ret tt) ;;
    perform (delete_proposed_correspondence correspondence) ;;
    let incompatible_correspondences :=
      incompatible_corresondences E correspondence in
    for_each incompatible_correspondences
      (fun incompatible =>
         must_win correspondence (letter_span correspondence)
                  [a_correspondence incompatible]
                  (letter_span incompatible)) ;;
    edge_locals <- fight_edge_bond correspondence ;;
    flip_object2 <- raise (NameError "flip_object2") ;;
    finish_build correspondence existing_object2_group
      incompatible_correspondences (fst edge_locals) (snd edge_locals)
      flip_object2
  end.

End Codelets.

(** ** A sample workspace: the strings [abc] and [xyz] *)

Definition abc : WString := {| text := "abc"; length := 3 |}.
Definition xyz : WString := {| text := "xyz"; length := 3 |}.

Definition letter (id : Z) (s : WString) (position : Z) : WObject.t :=
  {| WObject.oid := id;
     WObject.type := LetterType;
     WObject.string := s;
     WObject.string_number := position;
     WObject.left_string_position := position;
     WObject.right_string_position := position |}.

Definition letter_a : WObject.t := letter 1 abc 0.
Definition letter_b : WObject.t := letter 2 abc 1.
Definition letter_c : WObject.t := letter 3 abc 2.
Definition letter_x : WObject.t := letter 4 xyz 0.
Definition letter_y : WObject.t := letter 5 xyz 1.
Definition letter_z : WObject.t := letter 6 xyz 2.

(** The group that spans the whole of [abc]. *)
Definition group_abc : WObject.t :=
  {| WObject.oid := 7;
     WObject.type := GroupType;
     WObject.string := abc;
     WObject.string_number := 3;
     WObject.left_string_position := 0;
     WObject.right_string_position := 2 |}.

Definition node (n : string) : Node := {| name := n |}.

Definition fresh_structure : Structure :=
  {| proposal_level := 0;
     internal_strength := 0;
     external_strength := 0;
     group := None |}.

Definition in_group (g : WGroup) : Structure :=
  {| proposal_level := 3;
     internal_strength := 0;
     external_strength := 0;
     group := Some g |}.

(** Successor bonds [a -> b] and [b -> c] on the letter category. *)
Definition bond_ab : Bond.t :=
  Bond.init fresh_structure letter_a letter_b
    (node "successor") (node "letter_category") (node "a") (node "b").

Definition bond_bc : Bond.t :=
  Bond.init fresh_structure letter_b letter_c
    (node "successor") (node "letter_category") (node "b") (node "c").

(** The bond [b -> c] once the group [abc], of total strength 80, has been
    built around it. *)
Definition strong_group_abc : WGroup :=
  {| as_object := group_abc; total_strength := 80 |}.

Definition bond_bc_grouped : Bond.t :=
  Bond.init (in_group strong_group_abc) letter_b letter_c
    (node "successor") (node "letter_category") (node "b") (node "c").

(** The same two letters bonded on another facet, under other
    descriptors. *)
Definition bond_ab_length : Bond.t :=
  Bond.init fresh_structure letter_a letter_b
    (node "successor") (node "length") (node "one") (node "two").

Definition Mapping_eq (m n : Mapping) : bool :=
  Value_eq (description_type1 m) (description_type1 n) &&
  Value_eq (description_type2 m) (description_type2 n) &&
  Value_eq (descriptor1 m) (descriptor1 n) &&
  Value_eq (descriptor2 m) (descriptor2 n).

Definition mapping (description_type d1 d2 : string) : Mapping :=
  {| description_type1 := VNode (node description_type);
     description_type2 := VNode (node description_type);
     descriptor1 := VNode (node d1);
     descriptor2 := VNode (node d2);
     label := VNode (node "identity");
     relevant := true |}.

Definition leftmost_to_leftmost : Mapping :=
  mapping "plato_string_position_category" "leftmost" "leftmost".

Definition letter_to_letter : Mapping :=
  mapping "plato_object_category" "letter" "letter".

Definition correspond (id : Z) (o1 o2 : WObject.t) (ms : list Mapping)
  : Correspondence :=
  {| correspondence_id := id;
     object1 := o1;
     object2 := o2;
     concept_mappings := ms;
     letter_span := 2 |}.

(** A built correspondence [a <-> x] and a proposal for the same two
    letters that carries one more concept mapping. *)
Definition built_ax : Correspondence :=
  correspond 1 letter_a letter_x [leftmost_to_leftmost].

Definition proposed_ax : Correspondence :=
  correspond 2 letter_a letter_x [leftmost_to_leftmost; letter_to_letter].

(** A built correspondence [a <-> z], a rival of any [a <-> x]. *)
Definition built_az : Correspondence :=
  correspond 3 letter_a letter_z
    [mapping "plato_string_position_category" "leftmost" "rightmost"].

Definition proposed_by (c : Correspondence) (o1 o2 : WObject.t) : bool :=
  WObject.eq (object1 c) o1 && WObject.eq (object2 c) o2.

(** The collaborators over [abc] and [xyz]: [built] are the built
    correspondences, [wins] decides every fight from its draw.  Objects at
    position 0 are described as leftmost; a mapping is present in a
    correspondence when its concept mappings hold an equal one; two
    correspondences are the same when they relate the same objects, rivals
    when they share one object. *)
Definition over_abc_xyz (built : list Correspondence) (wins : Draw -> bool)
  : Collaborators :=
  let spans (o : WObject.t) :=
    (WObject.left_string_position o =? 0) &&
    (WObject.right_string_position o =? length (WObject.string o) - 1) in
  let describe (o : WObject.t) :=
    if WObject.left_string_position o =? 0
    then [{| descriptor := VNode (node "leftmost") |}] else [] in
  {| Prob := Z;
     Proposal := Z;
     random_source := fun n => Z.of_nat n;
     initial_string := abc;
     target_string := xyz;
     choose_object :=
       fun s _ _ =>
         if String.eqb (text s) "abc" then group_abc else letter_x;
     self_target_string_objects := [letter_x; letter_y; letter_z];
     self_objects :=
       [letter_a; letter_b; letter_c; letter_x; letter_y; letter_z];
     is_group_present := fun _ => None;
     workspace_get_concept_mappings :=
       fun _ _ _ _ => [leftmost_to_leftmost];
     self_concept_mappings := fun _ _ _ _ => [leftmost_to_leftmost];
     workspace_temperature_adjusted_probability := fun p => p;
     self_temperature_adjusted_probability := fun p => p;
     workspace_propose_correspondence := fun _ _ _ _ => 0;
     self_propose_correspondence := fun _ _ _ _ => 0;
     self_slippages := [];
     self_correspondence_present :=
       fun c =>
         find (fun e => proposed_by e (object1 c) (object2 c)) built;
     self_rule := {| rule_id := 0 |};
     self_activation := 100;
     self_fight_it_out := fun _ _ _ _ d => wins d;
     spans_whole_string := spans;
     is_string_spanning_group :=
       fun o => ObjType_eq (WObject.type o) GroupType && spans o;
     string_spanning_group :=
       fun o => ObjType_eq (WObject.type o) GroupType && spans o;
     relevant_descriptions := describe;
     flipped_version := fun o => o;
     leftmost_in_string := fun o => WObject.left_string_position o =? 0;
     rightmost_in_string :=
       fun o =>
         WObject.right_string_position o =? length (WObject.string o) - 1;
     choose_relevant_distinguishing_description_by_conceptual_depth :=
       fun o _ => hd_error (describe o);
     inter_string_salience := fun _ => 50;
     object_bonds := fun _ => [];
     group_bonds := fun _ => [];
     slippability := fun _ => 100;
     slippablity := fun _ => 100;
     is_distinguishing := fun _ => true;
     distinguishing := fun _ => VNone;
     mapping_present :=
       fun c m => existsb (Mapping_eq m) (concept_mappings c);
     incompatible_corresondences :=
       fun c =>
         filter
           (fun e =>
              xorb (WObject.eq (object1 e) (object1 c))
                   (WObject.eq (object2 e) (object2 c)))
           built;
     incompatible_bond := fun _ => None;
     incompatible_rule := fun _ => false;
     over_100 := fun z => z;
     flip_coin := fun p _ => 0 <? p;
     select_list_position := fun _ _ => 0%nat;
     plato_opposite_is_active := false;
     nodes_are_all_opposite_concept_mappings := fun _ => false;
     self_all_opposite_concept_mappings := fun _ => false;
     nodes_plato_direction_category := node "plato_direction_category" |}.

Definition start : World := {| drawn := 0; log := [] |}.

(** ** What a run did *)

(** The calls that break or build a structure. *)
Definition breaks_or_builds (e : Event) : bool :=
  match e with
  | break_correspondence _ | break_bond _ | break_group _ | break_rule _
  | build_bond _ | build_group _ | build_correspondence _ => true
  | _ => false
  end.

Definition is_fight (e : Event) : bool :=
  match e with
  | fight_it_out _ _ _ _ _ => true
  | _ => false
  end.

Definition lost_fight (e : Event) : bool :=
  match e with
  | fight_it_out _ _ _ _ won => negb won
  | _ => false
  end.

(** A computation is [guarded] when, from every world, it only extends the
    log, breaks and builds nothing, and leaves by [return] whenever one of
    the fights it fought was lost. *)
Definition guarded {R A} (c : M R A) : Prop :=
  forall w, exists events,
    log (snd (c w)) = log w ++ events
    /\ existsb breaks_or_builds events = false
    /\ (existsb lost_fight events = true ->
        exists r, fst (c w) = Return r).

(** The end of the span of a bond, from its two objects. *)
Definition span_end (b : Bond.t) : Z :=
  Z.max (WObject.right_string_position (Bond.from_object b))
        (WObject.right_string_position (Bond.to_object b)).

(** ** The strength tester and further readings of a log *)

(** Lines 214-217 of the important-object scout: the descriptor looked for
    in the target string, after the slippages of the codelet. *)
Definition slipped_descriptor (E : Collaborators) (object1_descriptor : Value)
  : Value :=
  fold_left
    (fun found slippage =>
       if Value_eq (Slippage.descriptor1 slippage) object1_descriptor
       then Slippage.descriptor2 slippage else found)
    (self_slippages E) object1_descriptor.

(** Nothing follows a lost fight. *)
Fixpoint no_event_after_loss (events : list Event) : bool :=
  match events with
  | [] => true
  | e :: rest =>
    if lost_fight e then is_empty rest else no_event_after_loss rest
  end.

Definition count_fights (events : list Event) : nat :=
  List.length (filter is_fight events).

(** A computation fights [in_turn] when it only extends the log, takes one
    draw for each fight and for nothing else, logs nothing after a lost
    fight, and leaves by [return] when a fight was lost. *)
Definition in_turn {R A} (c : M R A) : Prop :=
  forall w, exists events,
    log (snd (c w)) = log w ++ events
    /\ drawn (snd (c w)) = (drawn w + count_fights events)%nat
    /\ no_event_after_loss events = true
    /\ (existsb lost_fight events = true ->
        exists r, fst (c w) = Return r).

(** A computation that raises nothing but [e]. *)
Definition raises_only {R A} (e : exn) (c : M R A) : Prop :=
  forall w e', fst (c w) = Raise e' -> e' = e.



Section StrengthTester.

Variable E : Collaborators.

(** [workspace.objects()], [self.target_string.group_present(...)],
    [correspondence.update_strengths()] and
    [correspondence.total_strength], on the base attributes of the
    correspondence. *)
Variable workspace_objects : list WObject.t.
Variable self_target_string_group_present : WObject.t -> bool.
Variable update_strengths : Correspondence -> Structure -> Structure.
Variable total_strength_of : Structure -> Z.



End StrengthTester.

(** * Properties *)

(** ** Bonds: construction *)

(** C4. A bond has no direction exactly when its category is [sameness];
    it has direction [left] exactly when its category is another one and
    [from_object] starts left of [to_object]. *)
Theorem direction_category_init :
  forall super_init from_object to_object bond_category bond_facet d1 d2,
    let b := Bond.init super_init from_object to_object
                       bond_category bond_facet d1 d2 in
    (Bond.direction_category b = None <->
       name bond_category = "sameness"%string)
    /\ (Bond.direction_category b = Some "left"%string <->
          name bond_category <> "sameness"%string
          /\ WObject.left_string_position from_object
             < WObject.left_string_position to_object).
Proof.
  intros s f t c fc d1 d2 b. subst b. unfold Bond.init. cbn.
  destruct (String.eqb_spec (name c) "sameness") as [Hs | Hs]; cbn.
  - split; [tauto |].
    split; [discriminate | intros [Hn _]; contradiction].
  - destruct (Z.ltb_spec (WObject.left_string_position f)
                         (WObject.left_string_position t)) as [Hlt | Hge].
    + split; [split; [discriminate | contradiction] |].
      split; [intros _; split; assumption | reflexivity].
    + split; [split; [discriminate | contradiction] |].
      split; [discriminate | intros [_ Hlt]; lia].
Qed.

(** A directed bond that does not point left points right. *)
Lemma direction_category_right :
  forall super_init from_object to_object bond_category bond_facet d1 d2,
    name bond_category <> "sameness"%string ->
    WObject.left_string_position to_object
      <= WObject.left_string_position from_object ->
    Bond.direction_category
      (Bond.init super_init from_object to_object
                 bond_category bond_facet d1 d2) = Some "right"%string.
Proof.
  intros s f t c fc d1 d2 Hs Hle. unfold Bond.init. cbn.
  destruct (String.eqb_spec (name c) "sameness") as [E | _];
    [contradiction |]. cbn.
  destruct (Z.ltb_spec (WObject.left_string_position f)
                       (WObject.left_string_position t)); [lia | reflexivity].
Qed.

(** The two ends of a bond are its two objects, in one order or the
    other. *)
Lemma left_right_are_the_ends :
  forall super_init from_object to_object bond_category bond_facet d1 d2,
    let b := Bond.init super_init from_object to_object
                       bond_category bond_facet d1 d2 in
    (Bond.left_object b = from_object /\ Bond.right_object b = to_object)
    \/ (Bond.left_object b = to_object /\ Bond.right_object b = from_object).
Proof.
  intros s f t c fc d1 d2 b. subst b. unfold Bond.init. cbn.
  destruct (WObject.left_string_position f <? WObject.left_string_position t);
    cbn; auto.
Qed.

(** C6. Whichever object was passed as [from_object], [left_object] does
    not start after [right_object]. *)
Theorem left_object_not_after_right_object :
  forall super_init from_object to_object bond_category bond_facet d1 d2,
    let b := Bond.init super_init from_object to_object
                       bond_category bond_facet d1 d2 in
    WObject.left_string_position (Bond.left_object b)
      <= WObject.left_string_position (Bond.right_object b).
Proof.
  intros s f t c fc d1 d2 b. subst b. unfold Bond.init. cbn.
  destruct (Z.ltb_spec (WObject.left_string_position f)
                       (WObject.left_string_position t)); cbn; lia.
Qed.

(** Passing the two objects the other way round gives the same left end
    position. *)
Lemma left_end_symmetric :
  forall s1 s2 o1 o2 c1 c2 f1 f2 d1 d2 d3 d4,
    WObject.left_string_position
      (Bond.left_object (Bond.init s1 o1 o2 c1 f1 d1 d2))
    = WObject.left_string_position
        (Bond.left_object (Bond.init s2 o2 o1 c2 f2 d3 d4)).
Proof.
  intros. unfold Bond.init. cbn.
  destruct (Z.ltb_spec (WObject.left_string_position o1)
                       (WObject.left_string_position o2));
    destruct (Z.ltb_spec (WObject.left_string_position o2)
                         (WObject.left_string_position o1)); cbn; lia.
Qed.

(** ** Bonds: equality *)

Lemma WObject_eq_refl : forall o, WObject.eq o o = true.
Proof. intros o. unfold WObject.eq. apply Z.eqb_refl. Qed.

Lemma Node_eq_refl : forall n, Node_eq n n = true.
Proof. intros n. unfold Node_eq. apply String.eqb_refl. Qed.

Lemma direction_eq_refl : forall d, direction_eq d d = true.
Proof. intros [d |]; cbn; [apply String.eqb_refl | reflexivity]. Qed.

(** [Bond.__eq__] looks at four attributes only. *)
Lemma eq_reads_four_attributes :
  forall (f t : WObject.t) (c : Node) (d : option string) (b1 b2 : Bond.t),
    Bond.from_object b1 = f -> Bond.from_object b2 = f ->
    Bond.to_object b1 = t -> Bond.to_object b2 = t ->
    Bond.bond_category b1 = c -> Bond.bond_category b2 = c ->
    Bond.direction_category b1 = d -> Bond.direction_category b2 = d ->
    Bond.eq b1 b2 = true.
Proof.
  intros f t c d b1 b2 Hf1 Hf2 Ht1 Ht2 Hc1 Hc2 Hd1 Hd2. unfold Bond.eq.
  rewrite Hf1, Hf2, Ht1, Ht2, Hc1, Hc2, Hd1, Hd2.
  now rewrite !WObject_eq_refl, Node_eq_refl, direction_eq_refl.
Qed.

(** C10. Two bonds between the same objects, of the same category and the
    same direction, are equal whatever their facets and descriptors. *)
Theorem eq_ignores_facet_and_descriptors :
  forall b1 b2 : Bond.t,
    Bond.from_object b1 = Bond.from_object b2 ->
    Bond.to_object b1 = Bond.to_object b2 ->
    Bond.bond_category b1 = Bond.bond_category b2 ->
    Bond.direction_category b1 = Bond.direction_category b2 ->
    Bond.eq b1 b2 = true.
Proof.
  intros b1 b2 Hf Ht Hc Hd.
  eapply eq_reads_four_attributes; eauto.
Qed.

(** The sample bonds [a -> b] on the letter category and on the length
    facet differ in facet and in both descriptors, and are equal. *)
Lemma eq_ignores_facet_and_descriptors_witness :
  Bond.bond_facet bond_ab <> Bond.bond_facet bond_ab_length
  /\ Bond.from_object_descriptor bond_ab
     <> Bond.from_object_descriptor bond_ab_length
  /\ Bond.to_object_descriptor bond_ab
     <> Bond.to_object_descriptor bond_ab_length
  /\ Bond.eq bond_ab bond_ab_length = true.
Proof.
  split; [discriminate |].
  split; [discriminate |].
  split; [discriminate |].
  apply (eq_ignores_facet_and_descriptors bond_ab bond_ab_length);
    reflexivity.
Defined.

(** Bonds built by [Bond.init] from the same objects and category are
    equal: the direction follows from the objects. *)
Lemma eq_init :
  forall s1 s2 o1 o2 c f1 f2 d1 d2 d3 d4,
    Bond.eq (Bond.init s1 o1 o2 c f1 d1 d2)
            (Bond.init s2 o1 o2 c f2 d3 d4) = true.
Proof.
  intros. eapply eq_reads_four_attributes; reflexivity.
Qed.

(** ** Bonds: the edges of the string *)

(** A bond is leftmost exactly when the leftmost of its two objects starts
    at position 0. *)
Lemma is_leftmost_in_string_init :
  forall super_init from_object to_object bond_category bond_facet d1 d2,
    Bond.is_leftmost_in_string
      (Bond.init super_init from_object to_object
                 bond_category bond_facet d1 d2) = true
    <-> Z.min (WObject.left_string_position from_object)
              (WObject.left_string_position to_object) = 0.
Proof.
  intros.
  unfold Bond.is_leftmost_in_string, Bond.init, Bond.left_string_position.
  apply Z.eqb_eq.
Qed.

(** In a string of two letters or more, whose positions count from 0, no
    bond is rightmost: line 64 compares a position with [1 - length]. *)
Lemma is_rightmost_in_string_long_string :
  forall super_init from_object to_object bond_category bond_facet d1 d2,
    2 <= length (WObject.string from_object) ->
    0 <= WObject.right_string_position from_object ->
    0 <= WObject.right_string_position to_object ->
    Bond.is_rightmost_in_string
      (Bond.init super_init from_object to_object
                 bond_category bond_facet d1 d2) = false.
Proof.
  intros s f t c fc d1 d2 Hlen Hf Ht.
  unfold Bond.is_rightmost_in_string, Bond.init,
    Bond.right_string_position, Bond.string.
  apply Z.eqb_neq. lia.
Qed.

(** In a string of one object, at position 0, a bond is leftmost and
    rightmost at once. *)
Lemma single_object_string_both :
  forall super_init from_object to_object bond_category bond_facet d1 d2,
    length (WObject.string from_object) = 1 ->
    WObject.left_string_position from_object = 0 ->
    WObject.right_string_position from_object = 0 ->
    WObject.left_string_position to_object = 0 ->
    WObject.right_string_position to_object = 0 ->
    let b := Bond.init super_init from_object to_object
                       bond_category bond_facet d1 d2 in
    Bond.is_leftmost_in_string b = true
    /\ Bond.is_rightmost_in_string b = true.
Proof.
  intros s f t c fc d1 d2 Hlen Hlf Hrf Hlt Hrt b. subst b.
  unfold Bond.is_leftmost_in_string, Bond.is_rightmost_in_string, Bond.init.
  cbn. rewrite Hlen, Hlf, Hrf, Hlt, Hrt. split; reflexivity.
Qed.

(** C5. The bond [b -> c] of [abc] ends at the last position of the string,
    position 2 of 3; its right position is the smaller of the two right
    positions, 1, and is compared with [1 - 3]: the bond is not found
    rightmost. *)
Theorem is_rightmost_in_string_misses_the_end :
  span_end bond_bc = length (Bond.string bond_bc) - 1
  /\ Bond.right_string_position bond_bc = 1
  /\ Bond.is_rightmost_in_string bond_bc = false.
Proof. repeat split. Qed.

(** ** Bonds: happiness *)

(** A bond outside every group has happiness 0 and unhappiness 100. *)
Lemma happiness_without_group :
  forall b : Bond.t,
    group (Bond.base b) = None ->
    Bond.happiness b = Returns 0 /\ Bond.unhappiness b = Returns 100.
Proof.
  intros b Hg. unfold Bond.unhappiness, Bond.happiness. rewrite Hg.
  split; reflexivity.
Qed.

(** Whenever [happiness] returns, [unhappiness] returns the rest to 100. *)
Lemma unhappiness_is_the_rest :
  forall (b : Bond.t) (h : Z),
    Bond.happiness b = Returns h ->
    Bond.unhappiness b = Returns (100 - h).
Proof.
  intros b h Hh. unfold Bond.unhappiness. rewrite Hh. reflexivity.
Qed.

(** A bond inside a group has no happiness: the call raises. *)
Lemma happiness_in_group :
  forall (b : Bond.t) (g : WGroup),
    group (Bond.base b) = Some g ->
    Bond.happiness b = Raises (NameError "group")
    /\ Bond.unhappiness b = Raises (NameError "group").
Proof.
  intros b g Hg. unfold Bond.unhappiness, Bond.happiness. rewrite Hg.
  split; reflexivity.
Qed.

(** C7. The bond [b -> c] inside the group [abc], whose total strength is
    80: [happiness] and [unhappiness] raise [NameError] where 80 and 20 are
    due. *)
Theorem happiness_of_grouped_bond_raises :
  option_map total_strength (group (Bond.base bond_bc_grouped)) = Some 80
  /\ Bond.happiness bond_bc_grouped = Raises (NameError "group")
  /\ Bond.unhappiness bond_bc_grouped = Raises (NameError "group").
Proof. repeat split. Qed.

(** ** Bonds: internal strength *)

(** No bond gets an internal strength from the method. *)
Lemma update_internal_strength_sets_nothing :
  forall b : Bond.t,
    Bond.update_internal_strength b = Raises (SyntaxError 199).
Proof. intros b. reflexivity. Qed.

(** C3. The successor bond [a -> b] on the letter category, between two
    letters: both factors are 1 and the strength due is the degree of
    association of [successor]; the method computes no strength, it does
    not compile. *)
Theorem update_internal_strength_does_not_compile :
  ObjType_eq (WObject.type (Bond.from_object bond_ab))
             (WObject.type (Bond.to_object bond_ab)) = true
  /\ name (Bond.bond_facet bond_ab) = "letter_category"%string
  /\ Bond.update_internal_strength bond_ab = Raises (SyntaxError 199).
Proof. repeat split. Qed.

(** ** Bonds: incompatible correspondences *)

Section IncompatibleCorrespondences.

Variable correspondence : WObject.t -> option Correspondence.
Variable left_bond right_bond : WObject.t -> option Bond.t.
Variable object_is_leftmost_in_string : WObject.t -> bool.
Variable object_is_rightmost_in_string : WObject.t -> bool.
Variable other_object : Correspondence -> WObject.t -> WObject.t.
Variable Mapping_init :
  Value -> Value -> Value -> Value -> Value -> Value -> Mapping.
Variable is_incompatible_concept_mapping : Mapping -> Mapping -> bool.
Variable plato_string_position_category : Node.
Variable plato_direction_category : Node.

Let incompatible_correspondences_of : Bond.t -> _ :=
  Bond.get_incompatible_correspondences
    correspondence left_bond right_bond
    object_is_leftmost_in_string object_is_rightmost_in_string
    other_object Mapping_init is_incompatible_concept_mapping
    plato_string_position_category plato_direction_category.

Let edge_of : Bond.t -> WObject.t -> Bond.locals -> _ :=
  Bond.edge
    correspondence left_bond right_bond
    object_is_leftmost_in_string object_is_rightmost_in_string
    other_object Mapping_init is_incompatible_concept_mapping
    plato_string_position_category plato_direction_category.

(** One end of a bond never gets past line 142: it leaves with a bare
    [return] or raises. *)
Lemma edge_never_continues :
  forall b o l,
    edge_of b o l = Return None
    \/ edge_of b o l
       = Raise (NameError "string_position_cateogry_conept_mapping").
Proof.
  intros b o [bound found]. unfold edge_of, Bond.edge.
  destruct (correspondence o); cbn; auto.
Qed.

(** A leftmost bond whose left object has no correspondence ends the whole
    check with [None], whatever the right end would contribute. *)
Lemma missing_left_correspondence_aborts :
  forall b,
    Bond.is_leftmost_in_string b = true ->
    correspondence (Bond.left_object b) = None ->
    incompatible_correspondences_of b = Returns None.
Proof.
  intros b Hl Hc.
  unfold incompatible_correspondences_of,
    Bond.get_incompatible_correspondences, Bond.edge.
  rewrite Hl, Hc. reflexivity.
Qed.

(** The list that the method returns is empty, and it is returned only by
    a bond at neither edge. *)
Lemma only_the_empty_list :
  forall b found,
    incompatible_correspondences_of b = Returns (Some found) ->
    found = []
    /\ Bond.is_leftmost_in_string b = false
    /\ Bond.is_rightmost_in_string b = false.
Proof.
  intros b found.
  pose proof (edge_never_continues b (Bond.left_object b) (None, []))
    as HL.
  pose proof (edge_never_continues b (Bond.right_object b) (None, []))
    as HR.
  unfold edge_of in HL, HR.
  unfold incompatible_correspondences_of,
    Bond.get_incompatible_correspondences.
  destruct (Bond.is_leftmost_in_string b).
  - destruct HL as [-> | ->]; cbn; discriminate.
  - cbv beta iota delta [flow_bind].
    destruct (Bond.is_rightmost_in_string b).
    + destruct HR as [-> | ->]; cbn; discriminate.
    + cbn. intros H. injection H as <-. auto.
Qed.

End IncompatibleCorrespondences.

(** C2. The bond [a -> b] is leftmost in [abc].  When the letter [a] has no
    correspondence the check ends at line 138 with [None], not with a list,
    and the right end is not looked at; when [a] corresponds to [x] the
    check raises at line 142. *)
Theorem get_incompatible_correspondences_stops_at_the_left_end :
  let check (correspondence : WObject.t -> option Correspondence) :=
    Bond.get_incompatible_correspondences
      correspondence (fun _ => None) (fun _ => Some bond_ab)
      (fun o => WObject.left_string_position o =? 0)
      (fun o =>
         WObject.right_string_position o =? length (WObject.string o) - 1)
      (fun c o => if WObject.eq o (object1 c) then object2 c else object1 c)
      (fun t1 t2 d1 d2 _ _ =>
         {| description_type1 := t1; description_type2 := t2;
            descriptor1 := d1; descriptor2 := d2;
            label := VNone; relevant := true |})
      (fun _ _ => true)
      (node "plato_string_position_category")
      (node "plato_direction_category") in
  Bond.is_leftmost_in_string bond_ab = true
  /\ check (fun _ => None) bond_ab = Returns None
  /\ check (fun o => if WObject.eq o letter_a then Some built_ax else None)
           bond_ab
     = Raises (NameError "string_position_cateogry_conept_mapping").
Proof. cbv zeta. repeat split. Qed.

(** ** Codelets: how computations extend the log *)

Lemma guarded_ret : forall R A (a : A), guarded (@ret R A a).
Proof.
  intros R A a w. exists []. cbn. rewrite app_nil_r.
  repeat split; discriminate.
Qed.

Lemma guarded_leave : forall R A (r : R), guarded (@leave R A r).
Proof.
  intros R A r w. exists []. cbn. rewrite app_nil_r.
  repeat split; discriminate.
Qed.

Lemma guarded_raise : forall R A (e : exn), guarded (@raise R A e).
Proof.
  intros R A e w. exists []. cbn. rewrite app_nil_r.
  repeat split; discriminate.
Qed.

Lemma guarded_draw : forall E R, guarded (@draw E R).
Proof.
  intros E R w. exists []. cbn. rewrite app_nil_r.
  repeat split; discriminate.
Qed.

Lemma guarded_perform :
  forall R (e : Event),
    breaks_or_builds e = false -> lost_fight e = false ->
    guarded (@perform R e).
Proof.
  intros R e Hb Hl w. exists [e]. cbn. rewrite Hb, Hl.
  repeat split; discriminate.
Qed.

Lemma guarded_bind :
  forall R A B (c : M R A) (k : A -> M R B),
    guarded c -> (forall a, guarded (k a)) -> guarded (bind c k).
Proof.
  intros R A B c k Hc Hk w. unfold bind.
  destruct (Hc w) as (ev1 & Hlog1 & Hq1 & Hl1).
  destruct (c w) as [[a | r | e] w1] eqn:Hcw; cbn in Hlog1, Hl1.
  - destruct (Hk a w1) as (ev2 & Hlog2 & Hq2 & Hl2).
    exists (ev1 ++ ev2). rewrite Hlog2, Hlog1, app_assoc.
    split; [reflexivity |]. rewrite !existsb_app, Hq1, Hq2.
    split; [reflexivity |]. intros Hlost.
    apply orb_true_iff in Hlost as [Hlost | Hlost].
    + destruct (Hl1 Hlost) as [r Hr]. discriminate.
    + exact (Hl2 Hlost).
  - exists ev1. cbn. split; [assumption |]. split; [assumption |].
    intros _. exists r. reflexivity.
  - exists ev1. cbn. split; [assumption |]. split; [assumption |].
    intros Hlost. destruct (Hl1 Hlost) as [r Hr]. discriminate.
Qed.

(** Raising before a continuation leaves the continuation unreached. *)
Lemma guarded_raise_bind :
  forall R A B (e : exn) (k : A -> M R B), guarded (bind (raise e) k).
Proof.
  intros R A B e k w. exists []. cbn. rewrite app_nil_r.
  repeat split; discriminate.
Qed.

Lemma guarded_for_each :
  forall R A (xs : list A) (body : A -> M R unit),
    (forall x, guarded (body x)) -> guarded (for_each xs body).
Proof.
  intros R A xs body Hbody. induction xs as [| x rest IH]; cbn.
  - apply guarded_ret.
  - apply guarded_bind; [apply Hbody | intros _; exact IH].
Qed.

Lemma guarded_must_win :
  forall E c weight against against_weight,
    guarded (must_win E c weight against against_weight).
Proof.
  intros E c weight against against_weight w.
  unfold must_win, fight, bind, draw, perform, ret, leave. cbn.
  destruct (self_fight_it_out E c weight against against_weight
              (random_source E (drawn w))) eqn:Hwon; cbn.
  - eexists. split; [reflexivity |]. cbn. split; [reflexivity | discriminate].
  - eexists. split; [reflexivity |]. cbn. split; [reflexivity |].
    intros _. exists tt. reflexivity.
Qed.

Create HintDb guarded.

#[local] Hint Resolve guarded_ret guarded_leave guarded_raise guarded_draw
  guarded_must_win guarded_raise_bind : guarded.


(** ** The builder *)

Lemma objects_gone_guarded :
  forall E R object1 object2 existing_object2_group,
    guarded (@objects_gone E R object1 object2 existing_object2_group).
Proof.
  intros E R o1 o2 g. unfold objects_gone.
  destruct (contains o1 (self_objects E)); cbn; auto with guarded.
  destruct (contains o2 (self_objects E)); cbn; auto with guarded.
Qed.

Lemma merge_into_existing_guarded :
  forall E correspondence existing,
    guarded (merge_into_existing E correspondence existing).
Proof.
  intros E c existing. unfold merge_into_existing.
  apply guarded_bind; [now apply guarded_perform | intros _].
  apply guarded_bind.
  - apply guarded_for_each. intros l. now apply guarded_perform.
  - intros _. apply guarded_bind; [now apply guarded_perform | intros _].
    apply guarded_leave.
Qed.

Lemma fight_edge_bond_guarded :
  forall E correspondence, guarded (fight_edge_bond E correspondence).
Proof.
  intros E c. unfold fight_edge_bond.
  destruct (_ && _); auto with guarded.
  destruct (incompatible_bond E c) as [b |]; auto with guarded.
  apply guarded_bind; auto with guarded. intros _.
  destruct (group (Bond.base b)); auto with guarded.
  apply guarded_bind; auto with guarded.
Qed.

(** Every run of the builder, from every world and with every
    collaborator: nothing is broken, nothing is built, and a run in which
    a fight was lost ends with [return]. *)
Lemma CorrespondenceBuilder_run_guarded :
  forall E correspondence flip_obj2,
    guarded (CorrespondenceBuilder_run E correspondence flip_obj2).
Proof.
  intros E c flip. unfold CorrespondenceBuilder_run.
  apply guarded_bind; [apply objects_gone_guarded | intros gone].
  destruct gone; auto with guarded.
  destruct (self_correspondence_present E c) as [existing |].
  - apply merge_into_existing_guarded.
  - apply guarded_bind.
    + apply guarded_for_each. intros m.
      destruct (relevant m); cbn; auto with guarded.
    + intros _. apply guarded_bind; [now apply guarded_perform | intros _].
      apply guarded_bind.
      * apply guarded_for_each. intros ic. auto with guarded.
      * intros _. apply guarded_bind; [apply fight_edge_bond_guarded |].
        intros locals. apply guarded_raise_bind.
Qed.

(** The builder never returns from the branch that fights: with both
    objects present, no equal correspondence built and all fights won, the
    run ends at line 155. *)
Lemma builder_stops_at_flip_object2 :
  forall E correspondence flip_obj2 w r,
    fst (CorrespondenceBuilder_run E correspondence flip_obj2 w) = Next r ->
    False.
Proof.
  intros E c flip w r. unfold CorrespondenceBuilder_run, bind.
  destruct (objects_gone E (object1 c) (object2 c) _ w) as [[gone | ? | ?] w1];
    try discriminate.
  destruct gone; [discriminate |].
  destruct (self_correspondence_present E c) as [existing |].
  - unfold merge_into_existing, bind, perform. cbn.
    destruct (for_each _ _ _) as [[? | ? | ?] ?]; discriminate.
  - destruct (for_each (concept_mappings c) _ w1) as [[? | ? | ?] w2];
      try discriminate.
    cbn.
    destruct (for_each (incompatible_corresondences E c) _ _)
      as [[? | ? | ?] w3]; try discriminate.
    destruct (fight_edge_bond E c w3) as [[? | ? | ?] w4]; discriminate.
Qed.

(** C1. The proposal [a <-> x] against the built rival [a <-> z], every
    fight won: the one required fight is fought and won, then the run
    raises at line 155; the rival is not broken and the proposal is not
    built. *)
Theorem builder_wins_and_builds_nothing :
  let E := over_abc_xyz [built_az] (fun _ => true) in
  incompatible_corresondences E proposed_ax = [built_az]
  /\ run_codelet (CorrespondenceBuilder_run E proposed_ax false) start
     = (Raises (NameError "flip_object2"),
        {| drawn := 1;
           log := [delete_proposed_correspondence proposed_ax;
                   fight_it_out proposed_ax 2
                     [a_correspondence built_az] 2 true] |}).
Proof. cbv zeta. split; reflexivity. Qed.

(** The same proposal when the fight is lost: the run returns, and only
    the proposal has left the bookkeeping. *)
Lemma builder_loses_and_returns :
  let E := over_abc_xyz [built_az] (fun _ => false) in
  run_codelet (CorrespondenceBuilder_run E proposed_ax false) start
  = (Returns tt,
     {| drawn := 1;
        log := [delete_proposed_correspondence proposed_ax;
                fight_it_out proposed_ax 2
                  [a_correspondence built_az] 2 false] |}).
Proof. reflexivity. Qed.



(** C8. The proposal [a <-> x] carries [letter_to_letter], which the built
    [a <-> x] lacks.  The run fights nothing and builds nothing, and it
    merges the empty list: the mapping is tested against the proposal. *)
Theorem builder_merges_no_new_mapping :
  let E := over_abc_xyz [built_ax] (fun _ => true) in
  self_correspondence_present E proposed_ax = Some built_ax
  /\ mapping_present E built_ax letter_to_letter = false
  /\ In letter_to_letter (concept_mappings proposed_ax)
  /\ run_codelet (CorrespondenceBuilder_run E proposed_ax false) start
     = (Returns tt,
        {| drawn := 0;
           log := [delete_proposed_correspondence proposed_ax;
                   buffer_add (VNode (node "identity")) 100;
                   buffer_add (VNode (node "identity")) 100;
                   add_concept_mappings built_ax []] |}).
Proof.
  cbv zeta. split; [reflexivity |]. split; [reflexivity |].
  split; [right; left; reflexivity | reflexivity].
Qed.

(** ** The scouts *)

(** Choosing the two objects takes draws and makes no call. *)
Lemma bottom_up_choose_keeps_log :
  forall E R w, log (snd (@bottom_up_choose E R w)) = log w.
Proof. intros E R w. reflexivity. Qed.

Lemma important_object_choose_keeps_log :
  forall E R w, log (snd (@important_object_choose E R w)) = log w.
Proof.
  intros E R w. unfold important_object_choose, bind, draw. cbn.
  destruct (choose_relevant_distinguishing_description_by_conceptual_depth
              E _ _) as [description |]; cbn; [| reflexivity].
  destruct (is_empty _); cbn; [reflexivity |].
  destruct (nth_error _ _); reflexivity.
Qed.

(** Both scouts test the spans first. *)
Lemma span_mismatch_leaves :
  forall E object1 object2 w,
    spans_whole_string E object1 <> spans_whole_string E object2 ->
    bottom_up_continue E object1 object2 w = (Return None, w)
    /\ important_object_continue E object1 object2 w = (Return None, w).
Proof.
  intros E o1 o2 w Hspan.
  unfold bottom_up_continue, important_object_continue.
  destruct (Bool.eqb (spans_whole_string E o1) (spans_whole_string E o2))
    eqn:Heq.
  - apply eqb_prop in Heq. contradiction.
  - split; reflexivity.
Qed.

(** C9. A run of either scout in which the two chosen objects differ in
    spanning their whole string returns [None], so that nothing is handed
    back for posting, and leaves the log as it was: no correspondence is
    proposed and no structure is made. *)
Theorem scout_fizzles_on_span_mismatch :
  forall E object1 object2 w,
    spans_whole_string E object1 <> spans_whole_string E object2 ->
    (forall w',
        bottom_up_choose E (R := option (Proposal E)) w
        = (Next (object1, object2), w') ->
        run_codelet (CorrespondenceBottomUpScout_run E) w = (Returns None, w')
        /\ log w' = log w)
    /\ (forall w',
           important_object_choose E (R := Proposal E) w
           = (Next (object1, object2), w') ->
           run_codelet (CorrespondenceImportantObjectScout_run E) w
           = (Returns None, w')
           /\ log w' = log w).
Proof.
  intros E o1 o2 w Hspan. split; intros w' Hchoose.
  - split.
    + unfold run_codelet, CorrespondenceBottomUpScout_run, bind.
      rewrite Hchoose. cbn [fst snd].
      destruct (span_mismatch_leaves E o1 o2 w' Hspan) as [-> _].
      reflexivity.
    + rewrite <- (bottom_up_choose_keeps_log E (option (Proposal E)) w).
      rewrite Hchoose. reflexivity.
  - split.
    + unfold run_codelet, CorrespondenceImportantObjectScout_run, bind.
      rewrite Hchoose. cbn [fst snd].
      destruct (span_mismatch_leaves E o1 o2 w' Hspan) as [_ ->].
      reflexivity.
    + rewrite <- (important_object_choose_keeps_log E (Proposal E) w).
      rewrite Hchoose. reflexivity.
Qed.

(** Over [abc] and [xyz] both scouts choose the group [abc], which spans
    its string, and the letter [x], which does not; both fizzle. *)
Lemma scout_fizzles_on_span_mismatch_witness :
  let E := over_abc_xyz [] (fun _ => true) in
  spans_whole_string E group_abc = true
  /\ spans_whole_string E letter_x = false
  /\ run_codelet (CorrespondenceBottomUpScout_run E) start
     = (Returns None, {| drawn := 2; log := [] |})
  /\ run_codelet (CorrespondenceImportantObjectScout_run E) start
     = (Returns None, {| drawn := 3; log := [] |}).
Proof.
  cbv zeta.
  assert (Hspan : spans_whole_string (over_abc_xyz [] (fun _ => true))
                    group_abc
                  <> spans_whole_string (over_abc_xyz [] (fun _ => true))
                       letter_x) by discriminate.
  destruct (scout_fizzles_on_span_mismatch
              (over_abc_xyz [] (fun _ => true)) group_abc letter_x start
              Hspan) as [Hbottom Himportant].
  split; [reflexivity |]. split; [reflexivity |]. split.
  - apply (Hbottom {| drawn := 2; log := [] |}). reflexivity.
  - apply (Himportant {| drawn := 3; log := [] |}). reflexivity.
Defined.

(** * Further properties of the bonds *)

Lemma WObject_eq_sym : forall a b, WObject.eq a b = WObject.eq b a.
Proof. intros a b. unfold WObject.eq. apply Z.eqb_sym. Qed.

Lemma WObject_eq_trans :
  forall a b c,
    WObject.eq a b = true -> WObject.eq b c = true -> WObject.eq a c = true.
Proof.
  unfold WObject.eq. intros a b c Hab Hbc.
  apply Z.eqb_eq in Hab, Hbc. apply Z.eqb_eq. congruence.
Qed.

Lemma direction_eq_sym : forall a b, direction_eq a b = direction_eq b a.
Proof.
  intros [a |] [b |]; cbn; try reflexivity. apply String.eqb_sym.
Qed.

Lemma direction_eq_true : forall a b, direction_eq a b = true -> a = b.
Proof.
  intros [a |] [b |]; cbn; try discriminate; [| reflexivity].
  intros H. apply String.eqb_eq in H. now subst.
Qed.

(** X1. [Bond.__eq__] is an equivalence: every bond equals itself, the
    comparison does not depend on the side a bond stands on, and it is
    transitive. *)
Theorem eq_is_an_equivalence :
  (forall b, Bond.eq b b = true)
  /\ (forall b1 b2, Bond.eq b1 b2 = Bond.eq b2 b1)
  /\ (forall b1 b2 b3,
         Bond.eq b1 b2 = true -> Bond.eq b2 b3 = true ->
         Bond.eq b1 b3 = true).
Proof.
  split; [| split].
  - intros b. unfold Bond.eq.
    now rewrite !WObject_eq_refl, Node_eq_refl, direction_eq_refl.
  - intros b1 b2. unfold Bond.eq, Node_eq.
    rewrite (WObject_eq_sym (Bond.from_object b1)).
    rewrite (WObject_eq_sym (Bond.to_object b1)).
    rewrite (String.eqb_sym (name (Bond.bond_category b1))).
    rewrite (direction_eq_sym (Bond.direction_category b1)).
    reflexivity.
  - intros b1 b2 b3 H12 H23. unfold Bond.eq, Node_eq in *.
    apply andb_true_iff in H12 as [H12 Hd12].
    apply andb_true_iff in H12 as [H12 Hc12].
    apply andb_true_iff in H12 as [Hf12 Ht12].
    apply andb_true_iff in H23 as [H23 Hd23].
    apply andb_true_iff in H23 as [H23 Hc23].
    apply andb_true_iff in H23 as [Hf23 Ht23].
    rewrite (WObject_eq_trans _ _ _ Hf12 Hf23).
    rewrite (WObject_eq_trans _ _ _ Ht12 Ht23).
    apply String.eqb_eq in Hc12, Hc23. rewrite Hc12, Hc23.
    rewrite String.eqb_refl.
    apply direction_eq_true in Hd12, Hd23. rewrite Hd12, Hd23.
    now rewrite direction_eq_refl.
Qed.

(** X2. The span a bond records: its left position is that of its left
    object and is not past the right object; its right position is not
    past the right position of either object; its string is that of
    [from_object]. *)
Theorem span_of_init :
  forall super_init from_object to_object bond_category bond_facet d1 d2,
    let b := Bond.init super_init from_object to_object
                       bond_category bond_facet d1 d2 in
    Bond.left_string_position b
    = WObject.left_string_position (Bond.left_object b)
    /\ Bond.left_string_position b
       <= WObject.left_string_position (Bond.right_object b)
    /\ Bond.right_string_position b
       <= WObject.right_string_position (Bond.left_object b)
    /\ Bond.right_string_position b
       <= WObject.right_string_position (Bond.right_object b)
    /\ Bond.string b = WObject.string from_object.
Proof.
  intros s f t c fc d1 d2 b. subst b.
  unfold Bond.init, Bond.left_string_position, Bond.right_string_position,
    Bond.left_object, Bond.right_object, Bond.string.
  destruct (Z.ltb_spec (WObject.left_string_position f)
                       (WObject.left_string_position t));
    cbn [fst snd]; repeat split; lia.
Qed.

(** X3. Between two objects that start at different positions, the order
    of the two arguments decides the direction and nothing else: the left
    and right objects and the span are the same, and two directed bonds
    point opposite ways. *)
Theorem swapped_ends :
  forall s1 s2 o1 o2 c1 c2 f1 f2 d1 d2 d3 d4,
    WObject.left_string_position o1 <> WObject.left_string_position o2 ->
    let b := Bond.init s1 o1 o2 c1 f1 d1 d2 in
    let b' := Bond.init s2 o2 o1 c2 f2 d3 d4 in
    Bond.left_object b = Bond.left_object b'
    /\ Bond.right_object b = Bond.right_object b'
    /\ Bond.left_string_position b = Bond.left_string_position b'
    /\ Bond.right_string_position b = Bond.right_string_position b'
    /\ (Bond.direction_category b <> None ->
        Bond.direction_category b' <> None ->
        Bond.direction_category b <> Bond.direction_category b').
Proof.
  intros s1 s2 o1 o2 c1 c2 f1 f2 d1 d2 d3 d4 Hne b b'. subst b b'.
  unfold Bond.init, Bond.left_string_position, Bond.right_string_position,
    Bond.left_object, Bond.right_object, Bond.direction_category.
  destruct (Z.ltb_spec (WObject.left_string_position o1)
                       (WObject.left_string_position o2));
    destruct (Z.ltb_spec (WObject.left_string_position o2)
                         (WObject.left_string_position o1));
    try lia; cbn [fst snd];
    destruct (String.eqb (name c1) "sameness");
    destruct (String.eqb (name c2) "sameness"); cbn;
    repeat split; try lia; try discriminate; try congruence.
Qed.

Lemma swapped_ends_witness :
  WObject.left_string_position letter_a
  <> WObject.left_string_position letter_b
  /\ Bond.left_object bond_ab
     = Bond.left_object
         (Bond.init fresh_structure letter_b letter_a
            (node "predecessor") (node "letter_category")
            (node "b") (node "a"))
  /\ Bond.direction_category bond_ab = Some "left"%string.
Proof.
  split; [discriminate |]. split; [| reflexivity].
  apply (swapped_ends fresh_structure fresh_structure letter_a letter_b
           (node "successor") (node "predecessor")
           (node "letter_category") (node "letter_category")
           (node "a") (node "b") (node "b") (node "a")).
  discriminate.
Defined.

(** X4. Two objects that start at the same position: whichever is passed
    first, [to_object] becomes the left object and a directed bond points
    right. *)
Theorem tied_ends :
  forall s from_object to_object c f d1 d2,
    WObject.left_string_position from_object
    = WObject.left_string_position to_object ->
    let b := Bond.init s from_object to_object c f d1 d2 in
    Bond.left_object b = to_object
    /\ Bond.right_object b = from_object
    /\ (name c <> "sameness"%string ->
        Bond.direction_category b = Some "right"%string).
Proof.
  intros s f t c fc d1 d2 Htie b. subst b.
  unfold Bond.init, Bond.left_object, Bond.right_object,
    Bond.direction_category.
  rewrite Htie, Z.ltb_irrefl. cbn [fst snd].
  split; [reflexivity |]. split; [reflexivity |].
  intros Hs. destruct (String.eqb_spec (name c) "sameness");
    [contradiction | reflexivity].
Qed.

(** The letter [a] and the group [abc] both start at position 0. *)
Lemma tied_ends_witness :
  Bond.left_object
    (Bond.init fresh_structure letter_a group_abc
       (node "successor") (node "letter_category") (node "a") (node "b"))
  = group_abc
  /\ Bond.left_object
       (Bond.init fresh_structure group_abc letter_a
          (node "successor") (node "letter_category") (node "a") (node "b"))
     = letter_a.
Proof.
  split.
  - apply (tied_ends fresh_structure letter_a group_abc
             (node "successor") (node "letter_category")
             (node "a") (node "b")).
    reflexivity.
  - apply (tied_ends fresh_structure group_abc letter_a
             (node "successor") (node "letter_category")
             (node "a") (node "b")).
    reflexivity.
Defined.

(** X5. A bond between two objects of one position each (two letters)
    records a span of one position, that of its left object: the right
    position is the smaller of the two, line 36. *)
Theorem letters_give_a_point_span :
  forall s from_object to_object c f d1 d2,
    WObject.right_string_position from_object
    = WObject.left_string_position from_object ->
    WObject.right_string_position to_object
    = WObject.left_string_position to_object ->
    let b := Bond.init s from_object to_object c f d1 d2 in
    Bond.right_string_position b = Bond.left_string_position b
    /\ Bond.right_string_position b
       = WObject.left_string_position (Bond.left_object b).
Proof.
  intros s f t c fc d1 d2 Hf Ht b. subst b.
  unfold Bond.init, Bond.left_string_position, Bond.right_string_position,
    Bond.left_object.
  rewrite Hf, Ht.
  destruct (Z.ltb_spec (WObject.left_string_position f)
                       (WObject.left_string_position t));
    cbn [fst]; split; lia.
Qed.

Lemma letters_give_a_point_span_witness :
  Bond.right_string_position bond_bc = Bond.left_string_position bond_bc
  /\ Bond.right_string_position bond_bc
     = WObject.left_string_position (Bond.left_object bond_bc).
Proof.
  apply (letters_give_a_point_span fresh_structure letter_b letter_c
           (node "successor") (node "letter_category")
           (node "b") (node "c"));
    reflexivity.
Defined.

(** X6. A bond is never equal to a bond between the same two distinct
    objects taken the other way round. *)
Theorem reversed_bond_differs :
  forall s1 s2 o1 o2 c1 c2 f1 f2 d1 d2 d3 d4,
    WObject.oid o1 <> WObject.oid o2 ->
    Bond.eq (Bond.init s1 o1 o2 c1 f1 d1 d2)
            (Bond.init s2 o2 o1 c2 f2 d3 d4) = false.
Proof.
  intros s1 s2 o1 o2 c1 c2 f1 f2 d1 d2 d3 d4 Hne.
  unfold Bond.eq, Bond.init, Bond.from_object, WObject.eq.
  apply Z.eqb_neq in Hne. rewrite Hne. reflexivity.
Qed.

Lemma reversed_bond_differs_witness :
  Bond.eq bond_ab
          (Bond.init fresh_structure letter_b letter_a
             (node "successor") (node "letter_category")
             (node "b") (node "a")) = false.
Proof.
  apply (reversed_bond_differs fresh_structure fresh_structure
           letter_a letter_b (node "successor") (node "successor")
           (node "letter_category") (node "letter_category")
           (node "a") (node "b") (node "b") (node "a")).
  discriminate.
Defined.

(** X7. [are_members] takes its two objects in either order, holds of the
    left and right object of every bond, and holds of one end taken
    twice. *)
Theorem are_members_of_the_ends :
  (forall b o1 o2, Bond.are_members b o1 o2 = Bond.are_members b o2 o1)
  /\ (forall s from_object to_object c f d1 d2,
         let b := Bond.init s from_object to_object c f d1 d2 in
         Bond.are_members b (Bond.left_object b) (Bond.right_object b)
         = true)
  /\ (forall b, Bond.are_members b (Bond.from_object b) (Bond.from_object b)
                = true).
Proof.
  split; [| split].
  - intros b o1 o2. unfold Bond.are_members. apply andb_comm.
  - intros s f t c fc d1 d2 b. subst b.
    unfold Bond.are_members, Bond.init, Bond.left_object, Bond.right_object,
      Bond.from_object, Bond.to_object.
    destruct (WObject.left_string_position f
              <? WObject.left_string_position t); cbn [fst snd];
      rewrite !WObject_eq_refl, ?orb_true_r; reflexivity.
  - intros b. unfold Bond.are_members.
    now rewrite WObject_eq_refl.
Qed.

(** An object that [are_members] accepts is one of the two ends. *)
Lemma are_members_only_the_ends :
  forall b o1 o2,
    Bond.are_members b o1 o2 = true ->
    (WObject.oid o1 = WObject.oid (Bond.from_object b)
     \/ WObject.oid o1 = WObject.oid (Bond.to_object b))
    /\ (WObject.oid o2 = WObject.oid (Bond.from_object b)
        \/ WObject.oid o2 = WObject.oid (Bond.to_object b)).
Proof.
  intros b o1 o2 H. unfold Bond.are_members, WObject.eq in H.
  apply andb_true_iff in H as [H1 H2].
  apply orb_true_iff in H1, H2.
  rewrite !Z.eqb_eq in H1, H2. intuition congruence.
Qed.

(** X8. A bond is in a group exactly when the group holds two objects that
    are members of the bond, its left and its right object. *)
Theorem is_in_group_joins_two_objects :
  forall s from_object to_object c f d1 d2 objects,
    let b := Bond.init s from_object to_object c f d1 d2 in
    Bond.is_in_group b objects = true <->
    (exists o1 o2,
        In o1 objects /\ In o2 objects
        /\ WObject.eq (Bond.left_object b) o1 = true
        /\ WObject.eq (Bond.right_object b) o2 = true).
Proof.
  intros s f t c fc d1 d2 objects b. subst b.
  unfold Bond.is_in_group, Bond.init, Bond.left_object, Bond.right_object,
    Bond.from_object, Bond.to_object.
  rewrite andb_true_iff, !existsb_exists.
  destruct (WObject.left_string_position f
            <? WObject.left_string_position t); cbn [fst snd].
  - split.
    + intros [[o1 [Hi1 He1]] [o2 [Hi2 He2]]]. exists o1, o2. auto.
    + intros (o1 & o2 & Hi1 & Hi2 & He1 & He2). split; eauto.
  - split.
    + intros [[o1 [Hi1 He1]] [o2 [Hi2 He2]]]. exists o2, o1. auto.
    + intros (o1 & o2 & Hi1 & Hi2 & He1 & He2). split; eauto.
Qed.

(** X9. The importance of a bond is 100 when it has no direction and 50
    when it has one. *)
Theorem importance_follows_direction :
  forall s from_object to_object c f d1 d2,
    let b := Bond.init s from_object to_object c f d1 d2 in
    (Bond.direction_category b = None /\ Bond.importance b = 100)
    \/ (Bond.direction_category b <> None /\ Bond.importance b = 50).
Proof.
  intros s f t c fc d1 d2 b. subst b.
  unfold Bond.importance, Bond.init, Bond.direction_category,
    Bond.bond_category.
  destruct (String.eqb (name c) "sameness"); cbn.
  - left. split; reflexivity.
  - right. split; [| reflexivity].
    destruct (_ <? _); discriminate.
Qed.

(** ** Neighbours *)

Lemma possible_neighbors_raises_IndexError :
  forall entry objects neighbors e,
    Bond.possible_neighbors entry objects neighbors = Raises e ->
    e = IndexError.
Proof.
  intros entry objects. induction objects as [| obj rest IH];
    intros neighbors e; cbn.
  - discriminate.
  - destruct (entry obj) as [[b |] |].
    + apply IH.
    + apply IH.
    + intros H. injection H as <-. reflexivity.
Qed.

(** X10. No method chooses a neighbour.  [choose_left_neighbor] returns
    [None] for every bond; its first definition and [choose_right_neighbor]
    return [None] for a bond at the edge and raise for every other one,
    at the latest when they reach [util] on their last line. *)
Theorem no_neighbor_is_chosen :
  forall all_left_neighbors all_right_neighbors left_right_bonds b,
    let first_left :=
      Bond.choose_left_neighbor_first all_left_neighbors left_right_bonds b in
    let right :=
      Bond.choose_right_neighbor all_right_neighbors left_right_bonds b in
    Bond.choose_left_neighbor b = Returns None
    /\ (if Bond.is_leftmost_in_string b
        then first_left = Returns None
        else first_left = Raises IndexError
             \/ first_left = Raises (NameError "util"))
    /\ (if Bond.is_rightmost_in_string b
        then right = Returns None
        else right = Raises IndexError
             \/ right = Raises (NameError "util")).
Proof.
  intros L R table b first_left right. subst first_left right.
  split; [| split].
  - unfold Bond.choose_left_neighbor.
    destruct (Bond.is_leftmost_in_string b); reflexivity.
  - unfold Bond.choose_left_neighbor_first.
    destruct (Bond.is_leftmost_in_string b); [reflexivity |].
    destruct (Bond.possible_neighbors _ _ _) as [found | e] eqn:H; [auto |].
    apply possible_neighbors_raises_IndexError in H. subst. auto.
  - unfold Bond.choose_right_neighbor.
    destruct (Bond.is_rightmost_in_string b); [reflexivity |].
    destruct (Bond.possible_neighbors _ _ _) as [found | e] eqn:H; [auto |].
    apply possible_neighbors_raises_IndexError in H. subst. auto.
Qed.

(** ** Witnesses for the edge lemmas *)

Lemma is_rightmost_in_string_long_string_witness :
  Bond.is_rightmost_in_string bond_ab = false.
Proof.
  apply (is_rightmost_in_string_long_string fresh_structure letter_a letter_b
           (node "successor") (node "letter_category")
           (node "a") (node "b")); cbn; lia.
Defined.

(** The bond [b -> c] is found at neither edge: the check returns the empty
    list. *)
Lemma only_the_empty_list_witness :
  Bond.is_leftmost_in_string bond_bc = false
  /\ Bond.is_rightmost_in_string bond_bc = false.
Proof.
  apply (only_the_empty_list
           (fun _ => None) (fun _ => None) (fun _ => None)
           (fun _ => false) (fun _ => false) (fun _ o => o)
           (fun t1 t2 d1 d2 _ _ =>
              {| description_type1 := t1; description_type2 := t2;
                 descriptor1 := d1; descriptor2 := d2;
                 label := VNone; relevant := true |})
           (fun _ _ => false)
           (node "plato_string_position_category")
           (node "plato_direction_category")
           bond_bc []).
  reflexivity.
Defined.

(** * Further properties of the codelets *)

(** ** The scouts *)

(** X11. The slippability gate flips one coin for each mapping, whatever
    the coins show: it takes as many draws as there are mappings, makes no
    call and always falls through.  Its answer stays true once true, and is
    true only if it was so before or some coin of some mapping succeeds. *)
Theorem slippability_gate_flips_every_coin :
  forall E R slip adjust mappings possible w,
    exists answer,
      @slippability_gate E R slip adjust mappings possible w
      = (Next answer,
         {| drawn := (drawn w + List.length mappings)%nat; log := log w |})
      /\ (possible = true -> answer = true)
      /\ (answer = true ->
          possible = true
          \/ exists mapping d,
               In mapping mappings
               /\ flip_coin E (adjust (over_100 E (slip mapping))) d = true)
      /\ ((forall mapping d,
              In mapping mappings ->
              flip_coin E (adjust (over_100 E (slip mapping))) d = false) ->
          answer = possible).
Proof.
  intros E R slip adjust mappings.
  induction mappings as [| m rest IH]; intros possible w.
  - exists possible. cbn. rewrite Nat.add_0_r. destruct w; cbn.
    repeat split; auto.
  - cbn [slippability_gate]. unfold bind at 1, draw at 1.
    destruct (IH (if flip_coin E (adjust (over_100 E (slip m)))
                       (random_source E (drawn w))
                  then true else possible)
                 {| drawn := S (drawn w); log := log w |})
      as (answer & Hrun & Hkeep & Hwhy & Hnone).
    exists answer. rewrite Hrun. cbn [drawn log List.length].
    rewrite Nat.add_succ_r. split; [reflexivity |].
    split; [| split].
    + intros ->. apply Hkeep. now destruct (flip_coin _ _ _).
    + intros Ha. destruct (Hwhy Ha) as [Hp | (m' & d & Hin & Hflip)].
      * destruct (flip_coin E (adjust (over_100 E (slip m)))
                    (random_source E (drawn w))) eqn:Hm; [| auto].
        right. exists m, (random_source E (drawn w)). split; [now left | auto].
      * right. exists m', d. split; [now right | auto].
    + intros Hall. rewrite (Hall m _ (or_introl eq_refl)) in Hnone.
      apply Hnone. intros m' d Hin. apply Hall. now right.
Qed.

(** X12. The descriptor looked for in the target string: that of the first
    object when no slippage starts from it, and the far end of the last
    slippage that starts from it otherwise. *)
Theorem slipped_descriptor_last_slippage :
  forall E object1_descriptor,
    ((forall slippage,
         In slippage (self_slippages E) ->
         Value_eq (Slippage.descriptor1 slippage) object1_descriptor = false)
     -> slipped_descriptor E object1_descriptor = object1_descriptor)
    /\ (forall earlier slippage later,
           self_slippages E = earlier ++ slippage :: later ->
           Value_eq (Slippage.descriptor1 slippage) object1_descriptor = true
           -> (forall s, In s later ->
                 Value_eq (Slippage.descriptor1 s) object1_descriptor = false)
           -> slipped_descriptor E object1_descriptor
              = Slippage.descriptor2 slippage).
Proof.
  intros E d. unfold slipped_descriptor.
  assert (Hnone : forall slippages found,
             (forall s, In s slippages ->
                        Value_eq (Slippage.descriptor1 s) d = false) ->
             fold_left
               (fun found slippage =>
                  if Value_eq (Slippage.descriptor1 slippage) d
                  then Slippage.descriptor2 slippage else found)
               slippages found = found).
  { induction slippages as [| s rest IH]; intros found Hall; cbn.
    - reflexivity.
    - rewrite (Hall s (or_introl eq_refl)).
      apply IH. intros s' Hin. apply Hall. now right. }
  split.
  - intros Hall. now apply Hnone.
  - intros earlier s later -> Hs Hlater.
    rewrite fold_left_app. cbn. rewrite Hs. now apply Hnone.
Qed.

(** X13. When the important-object scout has its two objects, it took
    three draws and made no call; the second object is an object of the
    target string, and one of its relevant descriptions has the descriptor
    that the description chosen for the first object slips to. *)
Theorem important_object_choose_matches_descriptor :
  forall E (R : Type) w object1 object2 w',
    important_object_choose E (R := R) w = (Next (object1, object2), w') ->
    w' = {| drawn := S (S (S (drawn w))); log := log w |}
    /\ object1
       = choose_object E (initial_string E) "relative_importance"
           (random_source E (drawn w))
    /\ In object2 (self_target_string_objects E)
    /\ exists chosen found,
         choose_relevant_distinguishing_description_by_conceptual_depth
           E object1 (random_source E (S (drawn w))) = Some chosen
         /\ In found (relevant_descriptions E object2)
         /\ Value_eq (descriptor found)
                     (slipped_descriptor E (descriptor chosen)) = true.
Proof.
  intros E R w o1 o2 w'.
  unfold important_object_choose, bind, draw, leave, ret, raise.
  cbn [drawn log].
  destruct (choose_relevant_distinguishing_description_by_conceptual_depth
              E _ _) as [chosen |] eqn:Hchosen; [| discriminate].
  fold (slipped_descriptor E (descriptor chosen)).
  set (candidates := flat_map _ (self_target_string_objects E)).
  destruct (is_empty candidates); [discriminate |].
  destruct (nth_error candidates _) as [o |] eqn:Hnth; [| discriminate].
  intros H. injection H as <- <- <-.
  split; [reflexivity |]. split; [reflexivity |].
  apply nth_error_In in Hnth. unfold candidates in Hnth.
  apply in_flat_map in Hnth as (o' & Hin & Hdesc).
  apply in_flat_map in Hdesc as (found & Hfound & Hmatch).
  destruct (Value_eq (descriptor found)
                     (slipped_descriptor E (descriptor chosen))) eqn:Heq;
    [| contradiction].
  destruct Hmatch as [<- | []].
  split; [assumption |].
  exists chosen, found. auto.
Qed.

Lemma important_object_choose_matches_descriptor_witness :
  In letter_x
     (self_target_string_objects (over_abc_xyz [] (fun _ => true))).
Proof.
  apply (important_object_choose_matches_descriptor
           (over_abc_xyz [] (fun _ => true)) Z start group_abc letter_x
           {| drawn := 3; log := [] |}).
  reflexivity.
Defined.

(** The bottom-up scout once its two objects are chosen: the three ways
    it ends. *)
Lemma bottom_up_continue_cases :
  forall E object1 object2 w,
    let mappings :=
      workspace_get_concept_mappings E object1 object2
        (relevant_descriptions E object1) (relevant_descriptions E object2) in
    let flipped_coins :=
      {| drawn := (drawn w + List.length mappings)%nat; log := log w |} in
    let r := bottom_up_continue E object1 object2 w in
    r = (Return None, w)
    \/ r = (Return None, flipped_coins)
    \/ exists proposed2 proposed_mappings,
         r = (Return (Some (workspace_propose_correspondence E
                              object1 proposed2 proposed_mappings true)),
              {| drawn := drawn flipped_coins;
                 log := log w ++ [propose_correspondence
                                    object1 proposed2 proposed_mappings
                                    true] |})
         /\ spans_whole_string E object1 = spans_whole_string E object2
         /\ WObject.string_number proposed2 = WObject.string_number object2
         /\ existsb (is_distinguishing E) mappings = true.
Proof.
  intros E o1 o2 w mappings flipped_coins r. subst r flipped_coins.
  unfold bottom_up_continue. fold mappings.
  destruct (Bool.eqb (spans_whole_string E o1) (spans_whole_string E o2))
    eqn:Hspan; cbn [negb]; [| left; reflexivity].
  apply eqb_prop in Hspan.
  destruct (is_empty mappings); [left; reflexivity |].
  destruct (slippability_gate_flips_every_coin
              E (option (Proposal E)) (slippability E)
              (workspace_temperature_adjusted_probability E)
              mappings false w)
    as (answer & Hgate & _).
  unfold bind. rewrite Hgate.
  destruct answer; cbn [negb]; [| right; left; reflexivity].
  destruct (filter (is_distinguishing E) mappings) as [| dm dms] eqn:Hdist;
    cbn [is_empty]; [right; left; reflexivity |].
  assert (Hsome : existsb (is_distinguishing E) mappings = true).
  { apply existsb_exists. exists dm.
    assert (Hin : In dm (filter (is_distinguishing E) mappings))
      by (rewrite Hdist; now left).
    apply filter_In in Hin. exact Hin. }
  right. right. unfold perform, leave. cbn [fst snd drawn log].
  eexists. eexists. split; [reflexivity |].
  split; [assumption |]. split; [| assumption].
  destruct (_ && _); reflexivity.
Qed.

(** The bottom-up scout once its two objects are chosen. *)
Lemma bottom_up_continue_outcomes :
  forall E object1 object2 w,
    let mappings :=
      workspace_get_concept_mappings E object1 object2
        (relevant_descriptions E object1) (relevant_descriptions E object2) in
    let r := bottom_up_continue E object1 object2 w in
    (drawn (snd r) = drawn w
     \/ drawn (snd r) = (drawn w + List.length mappings)%nat)
    /\ ((fst r = Return None /\ log (snd r) = log w)
        \/ exists proposed2 proposed_mappings,
             fst r
             = Return (Some (workspace_propose_correspondence E
                               object1 proposed2 proposed_mappings true))
             /\ log (snd r)
                = log w ++ [propose_correspondence
                              object1 proposed2 proposed_mappings true]
             /\ spans_whole_string E object1 = spans_whole_string E object2
             /\ WObject.string_number proposed2
                = WObject.string_number object2
             /\ existsb (is_distinguishing E) mappings = true).
Proof.
  intros E o1 o2 w mappings r.
  destruct (bottom_up_continue_cases E o1 o2 w)
    as [Hr | [Hr | (p2 & pm & Hr & Hrest)]];
    fold mappings in Hr; fold r in Hr; rewrite Hr; cbn [fst snd drawn log].
  - auto.
  - auto.
  - split; [auto |]. right. exists p2, pm. auto.
Qed.

(** X14. Every run of the bottom-up scout returns: either [None], with the
    log as it was, or the proposal, after one call of
    [propose_correspondence] with the flag [True].  A proposal is made only
    for two objects that agree on spanning their string and that have a
    distinguishing mapping; its first object is the one chosen, its second
    object has the string number of the one chosen.  The run takes two
    draws, and one more for each mapping once the coins are flipped. *)
Theorem bottom_up_scout_outcomes :
  forall E w,
    let object1 :=
      choose_object E (initial_string E) "inter_string_salience"
        (random_source E (drawn w)) in
    let object2 :=
      choose_object E (target_string E) "inter_string_salience"
        (random_source E (S (drawn w))) in
    let mappings :=
      workspace_get_concept_mappings E object1 object2
        (relevant_descriptions E object1) (relevant_descriptions E object2) in
    let r := run_codelet (CorrespondenceBottomUpScout_run E) w in
    (drawn (snd r) = S (S (drawn w))
     \/ drawn (snd r) = (S (S (drawn w)) + List.length mappings)%nat)
    /\ ((fst r = Returns None /\ log (snd r) = log w)
        \/ exists proposed2 proposed_mappings,
             fst r
             = Returns (Some (workspace_propose_correspondence E
                                object1 proposed2 proposed_mappings true))
             /\ log (snd r)
                = log w ++ [propose_correspondence
                              object1 proposed2 proposed_mappings true]
             /\ spans_whole_string E object1 = spans_whole_string E object2
             /\ WObject.string_number proposed2
                = WObject.string_number object2
             /\ existsb (is_distinguishing E) mappings = true).
Proof.
  intros E w object1 object2 mappings r.
  assert (Hchoose :
            bottom_up_choose E (R := option (Proposal E)) w
            = (Next (object1, object2),
               {| drawn := S (S (drawn w)); log := log w |}))
    by reflexivity.
  subst r. unfold run_codelet, CorrespondenceBottomUpScout_run, bind.
  rewrite Hchoose. cbn [fst snd].
  destruct (bottom_up_continue_outcomes
              E object1 object2 {| drawn := S (S (drawn w)); log := log w |})
    as [Hdrawn Hout].
  cbn [drawn log] in Hdrawn, Hout. fold mappings in Hdrawn, Hout.
  split; [exact Hdrawn |].
  destruct Hout as [[Hr Hl] | (p2 & pm & Hr & Hl & Hrest)].
  - left. rewrite Hr. auto.
  - right. exists p2, pm. rewrite Hr. auto.
Qed.

(** The coins of the important-object scout, and what follows them. *)
Lemma important_object_continue_never_proposes :
  forall E object1 object2 w,
    exists w',
      log w' = log w
      /\ (important_object_continue E object1 object2 w = (Return None, w')
          \/ important_object_continue E object1 object2 w
             = (Raise (NameError "distinguishing_mappings"), w')).
Proof.
  intros E o1 o2 w. unfold important_object_continue.
  destruct (Bool.eqb _ _); cbn [negb];
    [| exists w; split; [reflexivity | left; reflexivity]].
  set (mappings := self_concept_mappings E o1 o2 _ _).
  destruct (is_empty mappings) eqn:Hms;
    [exists w; split; [reflexivity | left; reflexivity] |].
  destruct (slippability_gate_flips_every_coin
              E (option (Proposal E)) (slippablity E)
              (self_temperature_adjusted_probability E) mappings false w)
    as (answer & Hgate & _).
  unfold bind. rewrite Hgate.
  exists {| drawn := (drawn w + List.length mappings)%nat; log := log w |}.
  split; [reflexivity |].
  destruct answer; cbn [negb]; [| left; reflexivity].
  destruct mappings; [discriminate |]. right. reflexivity.
Qed.

(** X15. No run of the important-object scout proposes a correspondence or
    makes any other call: it returns [None], or raises [IndexError] at
    line 229, or raises [NameError] at line 259, where it reads
    [distinguishing_mappings]. *)
Theorem important_object_scout_never_proposes :
  forall E w,
    let r := run_codelet (CorrespondenceImportantObjectScout_run E) w in
    log (snd r) = log w
    /\ (fst r = Returns None
        \/ fst r = Raises IndexError
        \/ fst r = Raises (NameError "distinguishing_mappings")).
Proof.
  intros E w r.
  assert (H : exists w',
             log w' = log w
             /\ (CorrespondenceImportantObjectScout_run E w
                 = (Return None, w')
                 \/ CorrespondenceImportantObjectScout_run E w
                    = (Raise IndexError, w')
                 \/ CorrespondenceImportantObjectScout_run E w
                    = (Raise (NameError "distinguishing_mappings"), w'))).
  { unfold CorrespondenceImportantObjectScout_run, bind.
    pose proof (important_object_choose_keeps_log E (Proposal E) w) as Hlog.
    destruct (important_object_choose E w) as [[[o1 o2] | r0 | e] w1] eqn:Hc;
      cbn [fst snd] in *.
    - destruct (important_object_continue_never_proposes E o1 o2 w1)
        as (w2 & Hl & [Hr | Hr]); rewrite Hr; exists w2;
        (split; [congruence | auto]).
    - exists w1. split; [assumption |]. left.
      revert Hc.
      unfold important_object_choose, bind, draw, leave, ret, raise.
      cbn [drawn log].
      destruct
        (choose_relevant_distinguishing_description_by_conceptual_depth
           E _ _); [| intros H; injection H as <- _; reflexivity].
      destruct (is_empty _); [intros H; injection H as <- _; reflexivity |].
      destruct (nth_error _ _); discriminate.
    - exists w1. split; [assumption |]. right. left.
      revert Hc.
      unfold important_object_choose, bind, draw, leave, ret, raise.
      cbn [drawn log].
      destruct
        (choose_relevant_distinguishing_description_by_conceptual_depth
           E _ _); [| discriminate].
      destruct (is_empty _); [discriminate |].
      destruct (nth_error _ _); [discriminate |].
      intros H. injection H as <- _. reflexivity. }
  destruct H as (w' & Hl & [H | [H | H]]); subst r; unfold run_codelet;
    rewrite H; cbn [fst snd call]; auto.
Qed.

(** ** The builder *)

(** The loop of lines 123-125 returns at the first mapping that is no
    longer relevant and otherwise falls through; the world is as before. *)
Lemma relevance_check :
  forall (mappings : list Mapping) (w : World),
    for_each (R := unit) mappings
      (fun mapping => if negb (relevant mapping) then leave tt else ret tt) w
    = (if forallb relevant mappings then Next tt else Return tt, w).
Proof.
  induction mappings as [| m rest IH]; intros w; cbn.
  - reflexivity.
  - unfold bind. destruct (relevant m); cbn.
    + apply IH.
    + reflexivity.
Qed.

(** X16. A stale proposal is left alone.  When the first object is gone,
    or when both objects are there, no equal correspondence is built and
    one of the concept mappings is no longer relevant, the builder returns
    at once: no draw is taken and no call is made, so the proposal stays
    among the proposed correspondences. *)
Theorem stale_proposal_is_left_alone :
  forall E correspondence flip_obj2 w,
    contains (object1 correspondence) (self_objects E) = false
    \/ (contains (object1 correspondence) (self_objects E) = true
        /\ contains (object2 correspondence) (self_objects E) = true
        /\ self_correspondence_present E correspondence = None
        /\ forallb relevant (concept_mappings correspondence) = false) ->
    run_codelet (CorrespondenceBuilder_run E correspondence flip_obj2) w
    = (Returns tt, w).
Proof.
  intros E c flip w [H1 | (H1 & H2 & Hp & Hrel)];
    unfold run_codelet, CorrespondenceBuilder_run, bind, objects_gone;
    rewrite H1; cbn.
  - reflexivity.
  - rewrite H2. cbn. rewrite Hp, relevance_check, Hrel. reflexivity.
Qed.

Lemma stale_proposal_is_left_alone_witness :
  let faded :=
    correspond 4 letter_a letter_x
      [leftmost_to_leftmost;
       {| description_type1 := VNode (node "plato_object_category");
          description_type2 := VNode (node "plato_object_category");
          descriptor1 := VNode (node "letter");
          descriptor2 := VNode (node "letter");
          label := VNode (node "identity");
          relevant := false |}] in
  run_codelet
    (CorrespondenceBuilder_run (over_abc_xyz [built_az] (fun _ => true))
       faded false) start
  = (Returns tt, start).
Proof.
  cbv zeta.
  apply (stale_proposal_is_left_alone
           (over_abc_xyz [built_az] (fun _ => true))).
  right. repeat split.
Defined.

(** X17. When the first object is there and the second is gone, the
    builder raises [NameError] at line 105, whatever its second argument
    and whether or not the flipped group is present; the world is as
    before. *)
Theorem missing_object2_raises :
  forall E correspondence flip_obj2 w,
    contains (object1 correspondence) (self_objects E) = true ->
    contains (object2 correspondence) (self_objects E) = false ->
    run_codelet (CorrespondenceBuilder_run E correspondence flip_obj2) w
    = (Raises (NameError "flip_object2"), w).
Proof.
  intros E c flip w H1 H2.
  unfold run_codelet, CorrespondenceBuilder_run, bind, objects_gone.
  rewrite H1, H2. reflexivity.
Qed.

Lemma missing_object2_raises_witness :
  run_codelet
    (CorrespondenceBuilder_run (over_abc_xyz [] (fun _ => true))
       (correspond 5 letter_a group_abc [leftmost_to_leftmost]) true) start
  = (Raises (NameError "flip_object2"), start).
Proof.
  apply (missing_object2_raises (over_abc_xyz [] (fun _ => true)));
    reflexivity.
Defined.



Lemma raises_only_must_win :
  forall E e c weight against against_weight,
    raises_only e (must_win E c weight against against_weight).
Proof.
  intros E e c weight against aw w e'.
  unfold must_win, fight, bind, draw, perform, ret, leave. cbn.
  destruct (self_fight_it_out E c weight against aw _); discriminate.
Qed.

Lemma raises_only_ret : forall R A e (a : A), raises_only e (@ret R A a).
Proof. intros R A e a w e'. discriminate. Qed.

Lemma raises_only_leave : forall R A e (r : R), raises_only e (@leave R A r).
Proof. intros R A e r w e'. discriminate. Qed.

Lemma raises_only_perform : forall R e ev, raises_only e (@perform R ev).
Proof. intros R e ev w e'. discriminate. Qed.

Lemma raises_only_raise_bind :
  forall R A B e (k : A -> M R B), raises_only e (bind (raise e) k).
Proof.
  intros R A B e k w e'. unfold bind, raise. cbn.
  intros H. now injection H as <-.
Qed.

Create HintDb raises.

#[local] Hint Resolve raises_only_ret raises_only_leave raises_only_perform
  raises_only_raise_bind raises_only_must_win : raises.



(** *** Fights, one after the other *)

Lemma no_event_after_loss_app :
  forall first second,
    existsb lost_fight first = false ->
    no_event_after_loss second = true ->
    no_event_after_loss (first ++ second) = true.
Proof.
  induction first as [| e rest IH]; intros second Hnone Hsecond; cbn in *.
  - exact Hsecond.
  - apply orb_false_iff in Hnone as [He Hrest]. rewrite He.
    now apply IH.
Qed.

Lemma count_fights_app :
  forall first second,
    count_fights (first ++ second)
    = (count_fights first + count_fights second)%nat.
Proof.
  intros first second. unfold count_fights.
  now rewrite filter_app, length_app.
Qed.

Lemma in_turn_quiet :
  forall R A (c : M R A),
    (forall w, snd (c w) = w) -> in_turn c.
Proof.
  intros R A c Hw w. exists []. rewrite Hw, app_nil_r. cbn.
  rewrite Nat.add_0_r. repeat split; discriminate.
Qed.

Lemma in_turn_perform :
  forall R (e : Event), is_fight e = false -> in_turn (@perform R e).
Proof.
  intros R e He w. exists [e]. unfold count_fights. cbn. rewrite He. cbn.
  assert (Hl : lost_fight e = false) by (destruct e; auto; discriminate).
  rewrite Hl, Nat.add_0_r. repeat split; discriminate.
Qed.

Lemma in_turn_bind :
  forall R A B (c : M R A) (k : A -> M R B),
    in_turn c -> (forall a, in_turn (k a)) -> in_turn (bind c k).
Proof.
  intros R A B c k Hc Hk w. unfold bind.
  destruct (Hc w) as (ev1 & Hlog1 & Hd1 & Ho1 & Hl1).
  destruct (c w) as [[a | r | e] w1] eqn:Hcw; cbn in Hlog1, Hd1, Hl1.
  - destruct (Hk a w1) as (ev2 & Hlog2 & Hd2 & Ho2 & Hl2).
    assert (Hnone : existsb lost_fight ev1 = false).
    { destruct (existsb lost_fight ev1); [| reflexivity].
      destruct (Hl1 eq_refl) as [r Hr]. discriminate. }
    exists (ev1 ++ ev2). rewrite Hlog2, Hlog1, app_assoc.
    split; [reflexivity |].
    rewrite Hd2, Hd1, count_fights_app, Nat.add_assoc.
    split; [reflexivity |].
    split; [now apply no_event_after_loss_app |].
    rewrite existsb_app, Hnone. exact Hl2.
  - exists ev1. cbn. repeat split; try assumption.
    intros _. exists r. reflexivity.
  - exists ev1. cbn. repeat split; try assumption.
    intros Hlost. destruct (Hl1 Hlost) as [r Hr]. discriminate.
Qed.

Lemma in_turn_raise_bind :
  forall R A B (e : exn) (k : A -> M R B), in_turn (bind (raise e) k).
Proof. intros R A B e k. now apply in_turn_quiet. Qed.

Lemma in_turn_for_each :
  forall R A (xs : list A) (body : A -> M R unit),
    (forall x, in_turn (body x)) -> in_turn (for_each xs body).
Proof.
  intros R A xs body Hbody. induction xs as [| x rest IH]; cbn.
  - now apply in_turn_quiet.
  - apply in_turn_bind; [apply Hbody | intros _; exact IH].
Qed.

Lemma in_turn_must_win :
  forall E c weight against against_weight,
    in_turn (must_win E c weight against against_weight).
Proof.
  intros E c weight against against_weight w.
  unfold must_win, fight, bind, draw, perform, ret, leave. cbn.
  destruct (self_fight_it_out E c weight against against_weight
              (random_source E (drawn w))) eqn:Hwon; cbn.
  - eexists. split; [reflexivity |]. unfold count_fights. cbn.
    rewrite Nat.add_1_r. repeat split. discriminate.
  - eexists. split; [reflexivity |]. unfold count_fights. cbn.
    rewrite Nat.add_1_r. repeat split. intros _. exists tt. reflexivity.
Qed.

(** X19. The builder fights one structure after the other.  In every run
    the draws taken from the random source are as many as the fights
    fought, and a lost fight is the last thing the run does: no fight
    follows it and no call is made after it. *)
Theorem CorrespondenceBuilder_run_in_turn :
  forall E correspondence flip_obj2,
    in_turn (CorrespondenceBuilder_run E correspondence flip_obj2).
Proof.
  intros E c flip. unfold CorrespondenceBuilder_run.
  apply in_turn_bind.
  - unfold objects_gone.
    destruct (contains (object1 c) (self_objects E)); cbn;
      [| now apply in_turn_quiet].
    destruct (contains (object2 c) (self_objects E)); cbn;
      now apply in_turn_quiet.
  - intros gone. destruct gone; [now apply in_turn_quiet |].
    destruct (self_correspondence_present E c) as [existing |].
    + unfold merge_into_existing.
      apply in_turn_bind; [now apply in_turn_perform | intros _].
      apply in_turn_bind.
      * apply in_turn_for_each. intros l. now apply in_turn_perform.
      * intros _. apply in_turn_bind; [now apply in_turn_perform |].
        intros _. now apply in_turn_quiet.
    + apply in_turn_bind.
      * apply in_turn_for_each. intros m.
        destruct (relevant m); cbn; now apply in_turn_quiet.
      * intros _. apply in_turn_bind; [now apply in_turn_perform |].
        intros _. apply in_turn_bind.
        -- apply in_turn_for_each. intros ic. apply in_turn_must_win.
        -- intros _. apply in_turn_bind; [| intros l; apply in_turn_raise_bind].
           unfold fight_edge_bond.
           destruct (_ && _); [| now apply in_turn_quiet].
           destruct (incompatible_bond E c) as [b |];
             [| now apply in_turn_quiet].
           apply in_turn_bind; [apply in_turn_must_win | intros _].
           destruct (group (Bond.base b));
             [| now apply in_turn_quiet].
           apply in_turn_bind; [apply in_turn_must_win | intros _].
           now apply in_turn_quiet.
Qed.


(** ** The strength tester *)

Section StrengthTesterFacts.

Variable E : Collaborators.
Variable workspace_objects : list WObject.t.
Variable self_target_string_group_present : WObject.t -> bool.
Variable update_strengths : Correspondence -> Structure -> Structure.
Variable total_strength_of : Structure -> Z.





End StrengthTesterFacts.

(** ** Happiness, whenever it is returned *)

(** X22. The only happiness a bond ever returns is 0, for a bond in no
    group; its unhappiness is then 100. *)
Theorem happiness_is_never_positive :
  forall (b : Bond.t) (h : Z),
    Bond.happiness b = Returns h ->
    h = 0 /\ Bond.unhappiness b = Returns 100 /\ group (Bond.base b) = None.
Proof.
  intros b h. unfold Bond.unhappiness, Bond.happiness.
  destruct (group (Bond.base b)); [discriminate |].
  intros H. injection H as <-. repeat split.
Qed.

Lemma happiness_is_never_positive_witness :
  Bond.unhappiness bond_ab = Returns 100.
Proof.
  apply (happiness_is_never_positive bond_ab 0). reflexivity.
Defined.

(** A string of one letter, and a bond from the letter to the group made
    of it. *)
Lemma single_object_string_both_witness :
  let one := {| text := "a"; length := 1 |} in
  let lone := letter 8 one 0 in
  let lone_group :=
    {| WObject.oid := 9;
       WObject.type := GroupType;
       WObject.string := one;
       WObject.string_number := 1;
       WObject.left_string_position := 0;
       WObject.right_string_position := 0 |} in
  let b :=
    Bond.init fresh_structure lone lone_group
      (node "sameness") (node "letter_category") (node "a") (node "a") in
  Bond.is_leftmost_in_string b = true
  /\ Bond.is_rightmost_in_string b = true.
Proof.
  cbv zeta.
  apply (single_object_string_both fresh_structure
           (letter 8 {| text := "a"; length := 1 |} 0)); reflexivity.
Defined.
